(** * taglib-simple: the stream adapter, the marshalling engine and the
      FileRef wrapper, embedded and checked against their specification.

    The development follows the layout of the extension:
    - [RubyIO]      the borrowed host resource (an in-memory octet buffer
                    with a cursor), the collaborator of [IOStream.cpp];
    - [IOStream]    [IOStream.cpp]: the adapter that emulates splicing;
    - [Ruby], [TagLib]  the two value models at the marshalling boundary,
                    with the library and host functions the code calls
                    but does not define gathered in the class [Runtime];
    - [Convert]     [convert_ruby_to_taglib.cpp], [convert_taglib_to_ruby.cpp];
    - [FileRef]     [FileRef.cpp]: the handle and its operations;
    - [Caller]      what the host program can do to a returned structure;
    - [Octets], [Spec], [Fixtures]  a concrete runtime, the rules as the
                    specification words them, and sample data.
    Definitions come first, the properties after them. *)

From Stdlib Require Import ZArith Lia Bool.
From stdpp Require Import base option list strings countable gmap.

Local Open Scope Z_scope.
#[local] Set Warnings "-register-all".

(** ** Octets and machine integers *)

Abbreviation byte := Byte.byte.

Definition zero_byte : byte := Byte.x00.

#[global] Instance byte_eq_dec : EqDecision byte := Byte.byte_eq_dec.

#[global] Instance byte_countable : Countable byte :=
  inj_countable Byte.to_N Byte.of_N Byte.of_to_N.

(** [off_t] / [long long]: 64-bit two's complement. *)
Definition to_offset (z : Z) : Z := (z + 2 ^ 63) mod 2 ^ 64 - 2 ^ 63.

(** [size_t] / [unsigned long]: 64-bit unsigned. *)
Definition to_size (z : Z) : Z := z mod 2 ^ 64.

(** [unsigned int]: 32-bit unsigned. *)
Definition to_uint (z : Z) : Z := z mod 2 ^ 32.

Definition OFFSET_MAX : Z := 2 ^ 63 - 1.

(** ** Exceptions and the two monads

    A Ruby exception unwinds through the C++ frames; whatever was written
    to the state before the raise stays written. *)

Inductive RubyError : Type :=
  | TypeError                 (* rb_eTypeError: wrong kind of object *)
  | RangeError                (* rb_eRangeError: integer does not fit *)
  | ArgumentError             (* rb_eArgError *)
  | KeyError (key : string)   (* rb_eKeyError, with the offending key *)
  | NotImplementedError       (* rb_eNotImpError *)
  | NoMethodError             (* the receiver lacks the method *)
  | FrozenError               (* mutation of a frozen object *)
  | IOError                   (* operation on a closed resource *)
  | Errno_EINVAL              (* seek or truncate to a negative offset *)
  | TagLibError.              (* TagLib::Error: handle closed or invalid *)

Inductive Outcome (A : Type) : Type :=
  | Ret (a : A)
  | Raise (e : RubyError).
Arguments Ret {A} a.
Arguments Raise {A} e.

Definition bindO {A B} (c : Outcome A) (k : A -> Outcome B) : Outcome B :=
  match c with
  | Ret a => k a
  | Raise e => Raise e
  end.

Notation "'try' x ':=' c 'in' k" := (bindO c (fun x => k))
  (at level 10, x name, c at level 100, k at level 200).

(** Stateful code: the state is threaded through, also past a raise. *)
Definition Exn (S A : Type) : Type := S -> Outcome A * S.

Definition ret {S A} (a : A) : Exn S A := fun s => (Ret a, s).
Definition raise {S A} (e : RubyError) : Exn S A := fun s => (Raise e, s).
Definition bindM {S A B} (c : Exn S A) (k : A -> Exn S B) : Exn S B :=
  fun s => match c s with
           | (Ret a, s') => k a s'
           | (Raise e, s') => (Raise e, s')
           end.
Definition liftO {S A} (c : Outcome A) : Exn S A := fun s => (c, s).

(** A loop that builds a list and stops at the first raise. *)
Section MapO.
Context {A B : Type} (f : A -> Outcome B).
Fixpoint mapO (l : list A) : Outcome (list B) :=
  match l with
  | [] => Ret []
  | x :: rest =>
      match f x with
      | Ret y =>
          match mapO rest with
          | Ret ys => Ret (y :: ys)
          | Raise e => Raise e
          end
      | Raise e => Raise e
      end
  end.
End MapO.

Notation "'let*' x ':=' c 'in' k" := (bindM c (fun x => k))
  (at level 10, x name, c at level 100, k at level 200).
Notation "c ;; k" := (bindM c (fun _ => k))
  (at level 100, k at level 200, right associativity).

(** ** The borrowed resource

    The adapter drives a Ruby IO-like object through [read], [write],
    [seek], [tell], [truncate], [closed?] and, when it has one,
    [writable?].  The object is the caller's; here it is a buffer of
    octets with a cursor, the behaviour of a [StringIO] or of a [File]
    opened read-write. *)
Module RubyIO.

Record t : Type := mk {
  content : list byte;
  pos : Z;                      (* the cursor, never negative *)
  closed : bool;                (* answer to [closed?] *)
  writable : option bool        (* answer to [writable?]; [None] when the
                                   object has no such method *)
}.

Definition size (io : t) : Z := Z.of_nat (length (content io)).

Definition with_pos (p : Z) (io : t) : t :=
  mk (content io) p (closed io) (writable io).
Definition with_content (c : list byte) (io : t) : t :=
  mk c (pos io) (closed io) (writable io).

(** Every call on a closed resource raises. *)
Definition guard {A} (body : Exn t A) : Exn t A :=
  fun io => if closed io then (Raise IOError, io) else body io.

(** [read()] without a length: everything from the cursor to the end,
    the empty string when the cursor is at or past the end. *)
Definition read_all : Exn t (list byte) :=
  guard (fun io =>
    let rest := drop (Z.to_nat (pos io)) (content io) in
    (Ret rest, with_pos (Z.max (pos io) (size io)) io)).

(** [read(n)]: up to [n] octets; [nil] at the end of the resource when
    [n] is positive; a negative [n] is an argument error. *)
Definition read (n : Z) : Exn t (option (list byte)) :=
  guard (fun io =>
    if n <? 0 then (Raise ArgumentError, io)
    else
      let rest := take (Z.to_nat n) (drop (Z.to_nat (pos io)) (content io)) in
      match rest with
      | [] => (Ret (if n =? 0 then Some [] else None), io)
      | _ => (Ret (Some rest), with_pos (pos io + Z.of_nat (length rest)) io)
      end).

(** The buffer seen through position [p]: past the end it is zero filled. *)
Definition pad_to (p : nat) (c : list byte) : list byte :=
  c ++ replicate (p - length c) zero_byte.

(** [write(bytes)]: overwrite at the cursor, growing the buffer when the
    write runs past the end. *)
Definition write (bytes : list byte) : Exn t unit :=
  guard (fun io =>
    let p := Z.to_nat (pos io) in
    let c := content io in
    (Ret tt,
     mk (take p (pad_to p c) ++ bytes ++ drop (p + length bytes) c)
        (pos io + Z.of_nat (length bytes)) (closed io) (writable io))).

Definition SEEK_SET : Z := 0.
Definition SEEK_CUR : Z := 1.
Definition SEEK_END : Z := 2.

Definition seek (offset whence : Z) : Exn t unit :=
  guard (fun io =>
    let target :=
      if whence =? SEEK_CUR then pos io + offset
      else if whence =? SEEK_END then size io + offset
      else offset in
    if target <? 0 then (Raise Errno_EINVAL, io)
    else (Ret tt, with_pos target io)).

Definition tell : Exn t Z := guard (fun io => (Ret (pos io), io)).

(** [truncate(n)]: cut or zero-extend to exactly [n] octets; the cursor
    stays where it is. *)
Definition truncate (n : Z) : Exn t unit :=
  guard (fun io =>
    if n <? 0 then (Raise Errno_EINVAL, io)
    else (Ret tt, with_content (take (Z.to_nat n) (pad_to (Z.to_nat n) (content io))) io)).

Definition closed_p : Exn t bool := fun io => (Ret (closed io), io).

(** A resource just opened on [c]. *)
Definition open (c : list byte) : t := mk c 0 false None.

End RubyIO.

(** ** IOStream.cpp: the stream adapter

    Integer types are those of the TagLib 2 build: [offset_type] and
    [v1_unsigned_offset_type] are [offset_t] (64-bit signed), [size_type]
    is [size_t] (64-bit unsigned).  Under TagLib 1 the same sums are taken
    in [unsigned long], with the same 64-bit results. *)
Module IOStream.

Abbreviation ByteVector := (list byte).

(** [ByteVector::size()]. *)
Definition ByteVector_size (v : ByteVector) : Z := Z.of_nat (length v).

Record t : Type := mk {
  io : RubyIO.t;          (* Object io: the borrowed resource *)
  openReadOnly : bool
}.

Inductive Position : Type := Beginning | Current | End.

(** A call on the wrapped object: the adapter's other field is kept. *)
Definition io_call {A} (m : Exn RubyIO.t A) : Exn t A :=
  fun s => let '(r, io') := m (io s) in (r, mk io' (openReadOnly s)).

(** What [std::move(ruby_io)] leaves in the constructor's parameter is
    decided by Rice's [Object] move constructor, which is not part of
    the repository: [moved_from_is_nil = true] when it resets the
    parameter to [nil], [false] when the parameter still names the
    resource.  [nil] has no [writable?] method. *)
Definition after_move (moved_from_is_nil : bool) (ruby_io : RubyIO.t) : option bool :=
  if moved_from_is_nil then None else RubyIO.writable ruby_io.

(** [IOStream::IOStream]:
    [openReadOnly = ruby_io.respond_to("writable?") && ruby_io.call("writable?").test()]. *)
Definition new (moved_from_is_nil : bool) (ruby_io : RubyIO.t) : t :=
  let answer := after_move moved_from_is_nil ruby_io in
  mk ruby_io
     (match answer with
      | Some w => true && w      (* responds, and the answer decides *)
      | None => false            (* does not respond *)
      end).

Definition readOnly (s : t) : bool := openReadOnly s.

Definition isOpen : Exn t bool :=
  let* c := io_call RubyIO.closed_p in ret (negb c).

Definition seek (offset : Z) (p : Position) : Exn t unit :=
  let whence :=
    match p with
    | Beginning => RubyIO.SEEK_SET
    | Current => RubyIO.SEEK_CUR
    | End => RubyIO.SEEK_END
    end in
  io_call (RubyIO.seek offset whence).

Definition tell : Exn t Z := io_call RubyIO.tell.

Definition truncate (length : Z) : Exn t unit := io_call (RubyIO.truncate length).

(** [readBlock]: [read((long)length)]; [nil] becomes the empty vector;
    the vector takes [static_cast<unsigned int>(str.length())] octets. *)
Definition readBlock (length : Z) : Exn t ByteVector :=
  let* result := io_call (RubyIO.read (to_offset length)) in
  match result with
  | None => ret []
  | Some str => ret (take (Z.to_nat (to_uint (ByteVector_size str))) str)
  end.

Definition writeBlock (data : ByteVector) : Exn t unit :=
  io_call (RubyIO.write data).

(** [IOStream::length]: remember the cursor, go to the end, read the
    cursor, come back. *)
Definition length : Exn t Z :=
  let* current := tell in
  seek 0 End ;;
  let* file_length := tell in
  seek current Beginning ;;
  ret file_length.

(** A [Rice::String] always wraps a String object; default-constructed it
    is the empty string.  [is_nil] on it is therefore false. *)
Definition String_is_nil (s : list byte) : bool := false.

(** [IOStream::insert]. *)
Definition insert (data : ByteVector) (start replace : Z) : Exn t unit :=
  seek start Beginning ;;
  let* remainder :=
    (if 0 <? replace then
       seek (to_offset replace) Current ;;
       io_call RubyIO.read_all
     else ret []) in
  seek start Beginning ;;
  writeBlock data ;;
  (if negb (String_is_nil remainder) then io_call (RubyIO.write remainder) else ret tt) ;;
  let new_length := to_size (start + ByteVector_size data) in
  let new_length :=
    if negb (String_is_nil remainder)
    then to_size (new_length + Z.of_nat (List.length remainder))
    else new_length in
  truncate (to_offset new_length).

(** [IOStream::removeBlock]. *)
Definition removeBlock (start length : Z) : Exn t unit :=
  seek (to_offset (to_size (start + length))) Beginning ;;
  let* remainder := io_call RubyIO.read_all in
  seek start Beginning ;;
  (if negb (String_is_nil remainder) then io_call (RubyIO.write remainder) else ret tt) ;;
  truncate (to_offset (to_size (start + Z.of_nat (List.length remainder)))).

Definition clear : Exn t unit := ret tt.

End IOStream.

(** ** The host's dynamic values

    A Ruby object as the extension sees it through Rice: its class, its
    payload and, for the containers and strings, the frozen flag. *)
Module Ruby.

Inductive rb_encoding : Type :=
  | UTF_8
  | ASCII_8BIT              (* binary *)
  | US_ASCII
  | ISO_8859_1              (* Latin-1 *)
  | UTF_16LE
  | UTF_16BE
  | UTF_16
  | OtherEncoding (name : string).

#[global] Instance rb_encoding_eq_dec : EqDecision rb_encoding.
Proof. solve_decision. Defined.

(** A String object: octets, encoding tag, frozen flag. *)
Record RString : Type := mkString {
  bytes : list byte;
  encoding : rb_encoding;
  str_frozen : bool
}.

Inductive Object : Type :=
  | Qnil
  | Qtrue
  | Qfalse
  | Integer (z : Z)
  | Symbol (name : string)
  | Str (s : RString)
  | Array (elems : list Object) (frozen : bool)
  | Hash (entries : list (Object * Object)) (frozen : bool)
  | Data (class_name : string) (members : list (string * Object))
  | Other (class_name : string).

(** [Object::test()]: everything but [nil] and [false] is true. *)
Definition test (o : Object) : bool :=
  match o with
  | Qnil | Qfalse => false
  | _ => true
  end.

Definition is_nil (o : Object) : bool :=
  match o with
  | Qnil => true
  | _ => false
  end.

(** Rice's typed wrappers check the class when they are built from an
    object: [Rice::String(obj)], [Rice::Array(obj)], [Rice::Hash(obj)] and
    [Rice::Symbol(obj)] raise [TypeError] on any other kind of object. *)
Definition as_String (o : Object) : Outcome RString :=
  match o with
  | Str s => Ret s
  | _ => Raise TypeError
  end.

Definition as_Array (o : Object) : Outcome (list Object) :=
  match o with
  | Array elems _ => Ret elems
  | _ => Raise TypeError
  end.

Definition as_Hash (o : Object) : Outcome (list (Object * Object)) :=
  match o with
  | Hash entries _ => Ret entries
  | _ => Raise TypeError
  end.

Definition as_Symbol (o : Object) : Outcome string :=
  match o with
  | Symbol name => Ret name
  | _ => Raise TypeError
  end.

(** [NUM2LL]: an Integer that fits [long long]. *)
Definition NUM2LL (o : Object) : Outcome Z :=
  match o with
  | Integer z => if (- 2 ^ 63 <=? z) && (z <? 2 ^ 63) then Ret z else Raise RangeError
  | _ => Raise TypeError
  end.

(** [NUM2UINT]: an Integer between [INT_MIN] and [UINT_MAX], taken
    modulo [2^32] (a negative value in [int] range wraps). *)
Definition NUM2UINT (o : Object) : Outcome Z :=
  match o with
  | Integer z => if (- 2 ^ 31 <=? z) && (z <? 2 ^ 32) then Ret (to_uint z) else Raise RangeError
  | _ => Raise TypeError
  end.

(** [rb_str_new] and friends hand out a fresh, unfrozen String. *)
Definition rb_str_new (b : list byte) (e : rb_encoding) : RString := mkString b e false.

(** [freeze]: sets the flag on the receiver, and only there. *)
Definition freeze (o : Object) : Object :=
  match o with
  | Str s => Str (mkString (bytes s) (encoding s) true)
  | Array elems _ => Array elems true
  | Hash entries _ => Hash entries true
  | _ => o
  end.

(** String keys are compared by content and encoding. *)
Definition same_key (k : RString) (o : Object) : bool :=
  match o with
  | Str k' => bool_decide (bytes k = bytes k' /\ encoding k = encoding k')
  | _ => false
  end.

Fixpoint store_entry (k : RString) (v : Object) (entries : list (Object * Object))
  : list (Object * Object) :=
  match entries with
  | [] => [(Str (mkString (bytes k) (encoding k) true), v)]
  | (k', v') :: rest =>
      if same_key k k' then (k', v) :: rest else (k', v') :: store_entry k v rest
  end.

(** [hash[key] = value] with a String key ([rb_hash_aset]): a frozen
    receiver refuses; a new key is stored as a frozen copy. *)
Definition rb_hash_aset (h : Object) (k : RString) (v : Object) : Outcome Object :=
  match h with
  | Hash entries true => Raise FrozenError
  | Hash entries false => Ret (Hash (store_entry k v entries) false)
  | _ => Raise TypeError
  end.

(** [array.push(x)]. *)
Definition rb_ary_push (a : Object) (x : Object) : Outcome Object :=
  match a with
  | Array elems true => Raise FrozenError
  | Array elems false => Ret (Array (elems ++ [x]) false)
  | _ => Raise TypeError
  end.

Definition lookup_entry (k : RString) (entries : list (Object * Object)) : option Object :=
  snd <$> List.find (fun kv => same_key k (fst kv)) entries.

(** Reading a member of a Data object by name. *)
Definition member (name : string) (o : Object) : option Object :=
  match o with
  | Data _ members => snd <$> List.find (fun m => String.eqb (fst m) name) members
  | _ => None
  end.

End Ruby.

(** ** The typed side: TagLib's values

    TagLib is consumed through its API.  A [TagLib::String] is kept as the
    constructor call that produced it, the C string (cut at the first NUL)
    and the declared [Type]; decoding is the library's business. *)
Module TagLib.

Inductive StringType : Type := Latin1 | UTF16 | UTF16BE | UTF8 | UTF16LE.

#[global] Instance StringType_eq_dec : EqDecision StringType.
Proof. solve_decision. Defined.

Record String : Type := mkStr {
  data : list byte;
  type : StringType
}.

#[global] Instance String_eq_dec : EqDecision String.
Proof. solve_decision. Defined.

Definition code_of_type (t : StringType) : nat :=
  match t with Latin1 => 0 | UTF16 => 1 | UTF16BE => 2 | UTF8 => 3 | UTF16LE => 4 end%nat.

Definition type_of_code (n : nat) : option StringType :=
  match n with
  | 0 => Some Latin1 | 1 => Some UTF16 | 2 => Some UTF16BE
  | 3 => Some UTF8 | 4 => Some UTF16LE | _ => None
  end%nat.

#[global] Program Instance StringType_countable : Countable StringType :=
  inj_countable code_of_type type_of_code _.
Next Obligation. by intros []. Qed.

#[global] Program Instance String_countable : Countable String :=
  inj_countable' (fun s => (data s, type s)) (fun p => mkStr (fst p) (snd p)) _.
Next Obligation. by intros []. Qed.

(** The octets a [const char *] designates: up to the first NUL. *)
Fixpoint until_nul (p : list byte) : list byte :=
  match p with
  | [] => []
  | b :: rest => if bool_decide (b = zero_byte) then [] else b :: until_nul rest
  end.

(** [TagLib::String(const char *s, Type t)]; [t] defaults to [Latin1]. *)
Definition String_of_cstr (p : list byte) (t : StringType) : String :=
  mkStr (until_nul p) t.

Abbreviation ByteVector := (list byte).
Abbreviation StringList := (list String).
Abbreviation ByteVectorList := (list ByteVector).

(** [TagLib::Variant] (the [Double] alternative is left out: the
    marshaller never builds one from a dynamic value). *)
Inductive Variant : Type :=
  | Void
  | VBool (b : bool)
  | VInt (z : Z)
  | VUInt (z : Z)
  | VLongLong (z : Z)
  | VULongLong (z : Z)
  | VString (s : String)
  | VStringList (l : StringList)
  | VByteVector (v : ByteVector)
  | VByteVectorList (l : ByteVectorList)
  | VVariantList (l : list Variant)
  | VVariantMap (m : list (String * Variant)).

Abbreviation VariantMap := (list (String * Variant)).

(** [Map::insert(key, value)]: an existing key is overwritten.  Entries
    are kept in insertion order; the library iterates in key order, on
    which nothing below depends. *)
Fixpoint Map_insert {V} (k : String) (v : V) (m : list (String * V)) : list (String * V) :=
  match m with
  | [] => [(k, v)]
  | (k', v') :: rest =>
      if bool_decide (k = k') then (k, v) :: rest else (k', v') :: Map_insert k v rest
  end.

(** What the marshaller and the wrapper use of the two runtimes without
    fixing it: the library's view of a string, and the host's transcoder. *)
Class Runtime : Type := {
  (** [String::length()] *)
  String_length : String -> nat;
  (** [String::to8Bit(true)]: the UTF-8 image *)
  String_to8Bit : String -> list byte;
  (** [String::toCString()]: the Latin-1 image *)
  String_toCString : String -> list byte;
  (** [String::upper()] *)
  String_upper : String -> String;
  (** [rb_str_export_to_enc(str, rb_utf8_encoding())] on the octets of a
      string tagged with the given encoding *)
  rb_str_export_to_utf8 : Ruby.rb_encoding -> list byte -> list byte;
  (** the major version of the library the extension is compiled for *)
  TAGLIB_MAJOR_VERSION : Z;
  (** the string built from the empty C string has no character *)
  String_length_empty : forall t, String_length (String_of_cstr [] t) = 0%nat
}.

(** [PropertyMap]: upper-cased key to list of strings. *)
Abbreviation PropertyMap := (gmap String StringList).

(** [PropertyMap::replace(key, values)]. *)
Definition PropertyMap_replace `{Runtime} (key : String) (values : StringList)
    (m : PropertyMap) : PropertyMap :=
  let realKey := String_upper key in
  <[realKey := values]> (delete realKey m).

(** [PropertyMap::removeEmpty()]. *)
Definition PropertyMap_removeEmpty (m : PropertyMap) : PropertyMap :=
  filter (fun kv => snd kv <> []) m.

(** [TagLib::Tag]: the seven well-known fields. *)
Record Tag : Type := mkTag {
  title : String;
  artist : String;
  album : String;
  genre : String;
  year : Z;               (* unsigned int *)
  track : Z;              (* unsigned int *)
  comment : String
}.

Record AudioProperties : Type := mkAudio {
  lengthInMilliseconds : Z;
  bitrate : Z;
  sampleRate : Z;
  channels : Z
}.

(** [TagLib::File], as far as the wrapper reaches into it. *)
Record File : Type := mkFile {
  isValid : bool;
  readOnly : bool;
  tag : Tag;
  audioProperties : option AudioProperties;   (* null when not read *)
  properties : PropertyMap;
  complexProperties : list (String * list VariantMap);
  saves : nat                                 (* how often [save()] ran *)
}.

(** [TagLib::FileRef]: [None] is the default-constructed, null reference. *)
Abbreviation FileRef := (option File).

(** [FileRef::isNull()]: no file, or a file that is not valid. *)
Definition isNull (r : FileRef) : bool :=
  match r with
  | None => true
  | Some f => negb (isValid f)
  end.

End TagLib.

(** ** convert_ruby_to_taglib.cpp and convert_taglib_to_ruby.cpp *)
Module Convert.
Import Ruby TagLib.

Section Marshalling.
Context `{Runtime}.

(** [Rice::String::c_str()] and [Rice::String::length()]. *)
Definition c_str (str : RString) : list byte := bytes str.
Definition length (str : RString) : Z := Z.of_nat (List.length (bytes str)).

(** [TagLib::ByteVector(const char *data, unsigned int length)]. *)
Definition ByteVector_of_data (p : list byte) (n : Z) : ByteVector :=
  take (Z.to_nat (to_uint n)) p.

(** *** Ruby to TagLib *)

Definition rubyStringToTagLibString (str : RString) : TagLib.String :=
  let enc := encoding str in
  if bool_decide (enc = UTF_8) then
    String_of_cstr (c_str str) UTF8
  else if bool_decide (enc = ASCII_8BIT) || bool_decide (enc = US_ASCII) then
    String_of_cstr (c_str str) UTF8
  else if bool_decide (enc = ISO_8859_1) then
    String_of_cstr (c_str str) Latin1
  else if bool_decide (enc = UTF_16LE) then
    String_of_cstr (c_str str) UTF16LE
  else if bool_decide (enc = UTF_16BE) then
    String_of_cstr (c_str str) UTF16BE
  else
    (* any other encoding: convert to UTF-8 first *)
    let utf8_str := rb_str_export_to_utf8 enc (bytes str) in
    String_of_cstr utf8_str UTF8.

Definition rubyStringOrNilToTagLibString (value : Object) : Outcome TagLib.String :=
  if is_nil value then Ret (String_of_cstr [] UTF8)
  else try str := as_String value in Ret (rubyStringToTagLibString str).

Definition rubyIntegerOrNilToUInt (value : Object) : Outcome Z :=
  if is_nil value then Ret 0 else NUM2UINT value.

(** [TagLib::String(item.c_str())]: the type defaults to [Latin1]. *)
Definition rubyObjectToTagLibStringList (obj : Object) : Outcome StringList :=
  match obj with
  | Array val_array _ =>
      mapO (fun it => try item := as_String it in
                      Ret (String_of_cstr (c_str item) Latin1)) val_array
  | _ => try s := as_String obj in Ret [String_of_cstr (c_str s) Latin1]
  end.

Definition isBinaryEncoding (str : RString) : bool :=
  bool_decide (encoding str = ASCII_8BIT).

Definition rubyArrayToTagLibStringList (arr : list Object) : Outcome StringList :=
  mapO (fun item => try str := as_String item in
                    Ret (String_of_cstr (c_str str) UTF8)) arr.

Definition rubyArrayToTagLibByteVectorList (arr : list Object) : Outcome ByteVectorList :=
  mapO (fun item => try str := as_String item in
                    Ret (ByteVector_of_data (c_str str) (length str))) arr.

Definition rubyStringToTaglibVariant (str : RString) : Variant :=
  if isBinaryEncoding str then
    (* binary string: convert to ByteVector *)
    VByteVector (ByteVector_of_data (c_str str) (length str))
  else
    (* assume UTF-8 for all other encodings *)
    VString (String_of_cstr (c_str str) UTF8).

(** The two container conversions call back into
    [rubyObjectToTagLibVariant] (declared ahead in the source); here the
    callee is a parameter until the recursion is tied below. *)
Section Containers.
Variable rubyObjectToTagLibVariant : Object -> Outcome Variant.

(** This can be a StringList, a ByteVectorList or a List<Variant>:
    only the first element is looked at. *)
Definition rubyArrayToTagLibVariant_body (arr : list Object) : Outcome Variant :=
  match arr with
  | [] => Ret Void
  | first :: _ =>
      match first with
      | Str first_str =>
          if isBinaryEncoding first_str then
            try l := rubyArrayToTagLibByteVectorList arr in Ret (VByteVectorList l)
          else
            try l := rubyArrayToTagLibStringList arr in Ret (VStringList l)
      | _ =>
          try variantList := mapO rubyObjectToTagLibVariant arr in
          Ret (VVariantList variantList)
      end
  end.

Definition rubyHashToTagLibVariantMap_body (hash : list (Object * Object))
  : Outcome VariantMap :=
  (fix loop (entries : list (Object * Object)) (result : VariantMap) : Outcome VariantMap :=
     match entries with
     | [] => Ret result
     | (k, v) :: rest =>
         match as_String k with
         | Ret ks =>
             match rubyObjectToTagLibVariant v with
             | Ret x => loop rest (Map_insert (String_of_cstr (c_str ks) Latin1) x result)
             | Raise e => Raise e
             end
         | Raise e => Raise e
         end
     end) hash [].

End Containers.

Fixpoint rubyObjectToTagLibVariant (obj : Object) : Outcome Variant :=
  match obj with
  | Qnil => Ret Void
  | Integer _ => try z := NUM2LL obj in Ret (VLongLong z)
  | Str s => Ret (rubyStringToTaglibVariant s)
  | Array elems _ => rubyArrayToTagLibVariant_body rubyObjectToTagLibVariant elems
  | Hash entries _ =>
      try m := rubyHashToTagLibVariantMap_body rubyObjectToTagLibVariant entries in
      Ret (VVariantMap m)
  | Qtrue => Ret (VBool true)
  | Qfalse => Ret (VBool false)
  | Symbol _ | Data _ _ | Other _ => Ret Void
  end.

Definition rubyArrayToTagLibVariant (arr : list Object) : Outcome Variant :=
  rubyArrayToTagLibVariant_body rubyObjectToTagLibVariant arr.

Definition rubyHashToTagLibVariantMap (hash : list (Object * Object)) : Outcome VariantMap :=
  rubyHashToTagLibVariantMap_body rubyObjectToTagLibVariant hash.

(** Used to set complex properties, where the input must be an Array of
    Hash. *)
Definition rubyObjectToTagLibComplexProperty (obj : Object) : Outcome (list VariantMap) :=
  if negb (test obj) then Ret []
  else
    try list := as_Array obj in
    mapO (fun it => try h := as_Hash it in rubyHashToTagLibVariantMap h) list.

(** *** TagLib to Ruby *)

Definition tagLibStringToRubyUTF8String (str : TagLib.String) : RString :=
  rb_str_new (String_to8Bit str) UTF_8.

Definition tagLibStringToNonEmptyRubyUTF8String (string : TagLib.String) : Object :=
  if (String_length string =? 0)%nat then Qnil
  else Str (tagLibStringToRubyUTF8String string).

Definition uintToNonZeroRubyInteger (integer : Z) : Object :=
  if integer =? 0 then Qnil else Integer integer.

Definition tagLibStringListToRuby (list : StringList) : Object :=
  Array (map (fun str => Str (tagLibStringToRubyUTF8String str)) list) false.

Definition tagLibByteVectorToRuby (byteVector : ByteVector) : RString :=
  rb_str_new byteVector ASCII_8BIT.

Definition tagLibByteVectorListToRuby (list : ByteVectorList) : Object :=
  Array (map (fun v => Str (tagLibByteVectorToRuby v)) list) false.

(** Each value array is frozen before it is stored, the hash once it is
    complete; the strings pushed into the arrays are left as created. *)
Definition tagLibPropertyMapToRubyHash (properties : PropertyMap) : Object :=
  let result :=
    fold_left
      (fun (result : list (Object * Object)) (property : TagLib.String * StringList) =>
         let key := tagLibStringToRubyUTF8String (fst property) in
         let values :=
           Array (map (fun item => Str (tagLibStringToRubyUTF8String item)) (snd property))
                 false in
         let values := freeze values in
         store_entry key values result)
      (map_to_list properties) [] in
  freeze (Hash result false).

Fixpoint taglibVariantToRuby (value : Variant) : Object :=
  match value with
  | VBool b => if b then Qtrue else Qfalse
  | VInt z | VUInt z | VLongLong z | VULongLong z => Integer z
  | VString s => Str (tagLibStringToRubyUTF8String s)
  | VStringList l => tagLibStringListToRuby l
  | VByteVector v => Str (tagLibByteVectorToRuby v)
  | VByteVectorList l => tagLibByteVectorListToRuby l
  | VVariantList l => Array (map taglibVariantToRuby l) false
  | VVariantMap m =>
      Hash (fold_left
              (fun result pair =>
                 (* Rice::String(pair.first.toCString()): a binary string *)
                 let key := rb_str_new (until_nul (String_toCString (fst pair))) ASCII_8BIT in
                 store_entry key (taglibVariantToRuby (snd pair)) result)
              m []) false
  | Void => Qnil
  end.

Definition taglibVariantMapToRuby (map : VariantMap) : Object :=
  taglibVariantToRuby (VVariantMap map).

Definition tagLibComplexPropertyToRuby (list : list VariantMap) : Object :=
  Array (map taglibVariantMapToRuby list) false.

End Marshalling.
End Convert.

(** ** FileRef.cpp: the handle and its operations *)
Module FileRef.
Import Ruby TagLib Convert.

(** The wrapper owns the library handle and, for a stream input, the
    adapter; the Ruby resource behind the adapter stays the caller's. *)
Record t : Type := mk {
  fileRef : TagLib.FileRef;
  stream : option IOStream.t
}.

(** Updates of [mergeProperties] whose key is a string and whose value is a string or an
    array of strings. *)
Definition well_typed_update (kv : Object * Object) : Prop :=
  exists key, fst kv = Str key
              /\ ((exists l frozen, snd kv = Array (map Str l) frozen)
                  \/ (exists v, snd kv = Str v)).

(** The keys [mergeTagProperties] knows, in the order of the
    specification. *)
Definition tag_keys : list string :=
  ["title"; "artist"; "album"; "genre"; "year"; "track"; "comment"].

Section Operations.
Context `{Runtime}.

(** [FileRef::close]: replace the handle by a null one and drop the
    adapter; nothing is done to the IO object. *)
Definition close : Exn t unit :=
  fun s =>
    if negb (isNull (fileRef s)) then (Ret tt, mk None None)
    else (Ret tt, s).

Definition isValid (s : t) : bool := negb (isNull (fileRef s)).

(** [FileRef::raiseInvalid]: returns when the handle is valid, raises
    [TagLib::Error] otherwise.  On return it hands over the file that
    [fileRef->file()] then designates. *)
Definition raiseInvalid : Exn t File :=
  fun s =>
    match fileRef s with
    | Some f => if isValid s then (Ret f, s) else (Raise TagLibError, s)
    | None => (Raise TagLibError, s)
    end.

(** A library call that changes the file behind the handle. *)
Definition set_file (f : File) : Exn t unit :=
  fun s => (Ret tt, mk (Some f) (stream s)).

Definition isReadOnly : Exn t bool :=
  let* f := raiseInvalid in
  ret (readOnly f).

Definition audioProperties : Exn t Object :=
  let* f := raiseInvalid in
  match TagLib.audioProperties f with
  | None => ret Qnil
  | Some props =>
      (* rb_cAudioProperties.call("new", ...): four positional members,
         named here after the getters that fill them *)
      ret (Data "TagLib::AudioProperties"
             [("lengthInMilliseconds", Integer (lengthInMilliseconds props));
              ("bitrate", Integer (bitrate props));
              ("sampleRate", Integer (sampleRate props));
              ("channels", Integer (channels props))])
  end.

(** [rb_cAudioTag.call("new", ...)]:
    define :title, :artist, :album, :genre, :year, :track, :comment *)
Definition AudioTag_new (tag : Tag) : Object :=
  Data "TagLib::AudioTag"
    [("title", tagLibStringToNonEmptyRubyUTF8String (title tag));
     ("artist", tagLibStringToNonEmptyRubyUTF8String (artist tag));
     ("album", tagLibStringToNonEmptyRubyUTF8String (album tag));
     ("genre", tagLibStringToNonEmptyRubyUTF8String (genre tag));
     ("year", uintToNonZeroRubyInteger (year tag));
     ("track", uintToNonZeroRubyInteger (track tag));
     ("comment", tagLibStringToNonEmptyRubyUTF8String (comment tag))].

Definition tag : Exn t Object :=
  let* f := raiseInvalid in
  ret (AudioTag_new (TagLib.tag f)).

(** [in_obj.call("to_h")]: a Hash is itself, a Data object lists its
    members under their names. *)
Definition to_h (in_obj : Object) : Outcome (list (Object * Object)) :=
  match in_obj with
  | Hash entries _ => Ret entries
  | Data _ members => Ret (map (fun m => (Symbol (fst m), snd m)) members)
  | _ => Raise NoMethodError
  end.

Definition with_tag (g : Tag) (f : File) : File :=
  mkFile (TagLib.isValid f) (readOnly f) g (TagLib.audioProperties f)
         (properties f) (complexProperties f) (saves f).

(** One turn of the loop of [mergeTagProperties]: the chain of
    comparisons on the key, each branch a setter on [fileRef->tag()]. *)
Definition mergeTagProperty (key : string) (value : Object) (g : Tag) : Outcome Tag :=
  if String.eqb key "title" then
    try v := rubyStringOrNilToTagLibString value in
    Ret (mkTag v (artist g) (album g) (genre g) (year g) (track g) (comment g))
  else if String.eqb key "artist" then
    try v := rubyStringOrNilToTagLibString value in
    Ret (mkTag (title g) v (album g) (genre g) (year g) (track g) (comment g))
  else if String.eqb key "album" then
    try v := rubyStringOrNilToTagLibString value in
    Ret (mkTag (title g) (artist g) v (genre g) (year g) (track g) (comment g))
  else if String.eqb key "comment" then
    try v := rubyStringOrNilToTagLibString value in
    Ret (mkTag (title g) (artist g) (album g) (genre g) (year g) (track g) v)
  else if String.eqb key "genre" then
    try v := rubyStringOrNilToTagLibString value in
    Ret (mkTag (title g) (artist g) (album g) v (year g) (track g) (comment g))
  else if String.eqb key "year" then
    try v := rubyIntegerOrNilToUInt value in
    Ret (mkTag (title g) (artist g) (album g) (genre g) v (track g) (comment g))
  else if String.eqb key "track" then
    try v := rubyIntegerOrNilToUInt value in
    Ret (mkTag (title g) (artist g) (album g) (genre g) (year g) v (comment g))
  else
    Raise (KeyError key).

(** The loop runs on the tag object the file holds: every setter acts on
    it at once, so the tag a raise leaves behind carries the assignments
    made so far. *)
Fixpoint mergeTagProperties_loop (entries : list (Object * Object)) (g : Tag)
  : Outcome unit * Tag :=
  match entries with
  | [] => (Ret tt, g)
  | (k, value) :: rest =>
      match as_Symbol k with
      | Ret key =>
          match mergeTagProperty key value g with
          | Ret g' => mergeTagProperties_loop rest g'
          | Raise e => (Raise e, g)
          end
      | Raise e => (Raise e, g)
      end
  end.

Definition mergeTagProperties (in_obj : Object) : Exn t unit :=
  let* f := raiseInvalid in
  let* entries := liftO (to_h in_obj) in
  fun s =>
    let '(r, g) := mergeTagProperties_loop entries (TagLib.tag f) in
    (r, mk (Some (with_tag g f)) (stream s)).

Definition properties : Exn t Object :=
  let* f := raiseInvalid in
  ret (tagLibPropertyMapToRubyHash (TagLib.properties f)).

Definition with_properties (p : PropertyMap) (f : File) : File :=
  mkFile (TagLib.isValid f) (readOnly f) (TagLib.tag f) (TagLib.audioProperties f)
         p (complexProperties f) (saves f).

(** The loop of [mergeProperties] on the local [properties] map. *)
Fixpoint mergeProperties_loop (entries : list (Object * Object)) (properties : PropertyMap)
  : Outcome PropertyMap :=
  match entries with
  | [] => Ret properties
  | (k, v) :: rest =>
      try key := as_String k in
      try values := rubyObjectToTagLibStringList v in
      mergeProperties_loop rest
        (PropertyMap_replace (rubyStringToTagLibString key) values properties)
  end.

Definition mergeProperties (entries : list (Object * Object)) (replace_all : bool)
  : Exn t unit :=
  let* f := raiseInvalid in
  let properties := if negb replace_all then TagLib.properties f else ∅ in
  let* properties := liftO (mergeProperties_loop entries properties) in
  let properties := PropertyMap_removeEmpty properties in
  (* set the modified properties back to the file *)
  set_file (with_properties properties f).

Definition save : Exn t unit :=
  let* f := raiseInvalid in
  set_file (mkFile (TagLib.isValid f) (readOnly f) (TagLib.tag f) (TagLib.audioProperties f)
                   (TagLib.properties f) (complexProperties f) (S (saves f))).

(** *** Complex properties *)

(** [File::complexPropertyKeys()], [File::complexProperties(key)],
    [File::setComplexProperties(key, list)]: an empty list removes the
    key. *)
Definition File_complexPropertyKeys (f : File) : StringList :=
  map fst (complexProperties f).

Definition File_complexProperties (key : TagLib.String) (f : File) : list VariantMap :=
  default [] (snd <$> List.find (fun kv => bool_decide (fst kv = key)) (complexProperties f)).

Definition File_setComplexProperties (key : TagLib.String) (value : list VariantMap)
    (f : File) : File :=
  let others := List.filter (fun kv => negb (bool_decide (fst kv = key))) (complexProperties f) in
  mkFile (TagLib.isValid f) (readOnly f) (TagLib.tag f) (TagLib.audioProperties f)
         (TagLib.properties f)
         (match value with
          | [] => others
          | _ => Map_insert key value (complexProperties f)
          end)
         (saves f).

Definition complexPropertyKeys : Exn t Object :=
  let* f := raiseInvalid in
  if TAGLIB_MAJOR_VERSION <? 2 then ret (Array [] false)
  else ret (tagLibStringListToRuby (File_complexPropertyKeys f)).

Definition complexProperty (key : RString) : Exn t Object :=
  let* f := raiseInvalid in
  if TAGLIB_MAJOR_VERSION <? 2 then raise NotImplementedError
  else ret (tagLibComplexPropertyToRuby
              (File_complexProperties (rubyStringToTagLibString key) f)).

(** The key and the value are converted as the two arguments of one call
    of [setComplexProperties]; the source does not fix which conversion
    runs first.  Here the key's does; the two orders differ only in which
    error is raised when both conversions fail. *)
Fixpoint mergeComplexProperties_loop (entries : list (Object * Object)) (f : File)
  : Outcome unit * File :=
  match entries with
  | [] => (Ret tt, f)
  | (k, v) :: rest =>
      match as_String k with
      | Ret key =>
          match rubyObjectToTagLibComplexProperty v with
          | Ret value =>
              mergeComplexProperties_loop rest
                (File_setComplexProperties (rubyStringToTagLibString key) value f)
          | Raise e => (Raise e, f)
          end
      | Raise e => (Raise e, f)
      end
  end.

Definition mergeComplexProperties (entries : list (Object * Object)) (replace_all : bool)
  : Exn t unit :=
  let* f := raiseInvalid in
  if TAGLIB_MAJOR_VERSION <? 2 then
    match entries with
    | [] => ret tt
    | _ => raise NotImplementedError
    end
  else
    let f :=
      if replace_all then
        fold_left (fun f item => File_setComplexProperties item [] f)
                  (File_complexPropertyKeys f) f
      else f in
    fun s =>
      let '(r, f') := mergeComplexProperties_loop entries f in
      (r, mk (Some f') (stream s)).

End Operations.
End FileRef.

(** ** What a caller can do to a returned structure

    The mutating methods of Hash, Array and String check the frozen flag
    of their receiver and of nothing else; reading ([h[k]], [a[i]]) is
    always allowed.  No object below is shared between two places of the
    structure, so a mutation is an update along its path. *)
Module Caller.
Import Ruby.

Inductive Mutation : Type :=
  | HashStore (k : RString) (v : Object)                 (* h[k] = v *)
  | HashDelete (k : RString)                             (* h.delete(k) *)
  | HashClear                                            (* h.clear *)
  | SeqPush (k : RString) (x : Object)                   (* h[k] << x *)
  | SeqStore (k : RString) (i : nat) (x : Object)        (* h[k][i] = x *)
  | SeqClear (k : RString)                               (* h[k].clear *)
  | ElemAppend (k : RString) (i : nat) (suffix : list byte).  (* h[k][i] << suffix *)

(** Mutations whose receiver is the mapping or one of its sequences. *)
Definition on_container (m : Mutation) : bool :=
  match m with
  | ElemAppend _ _ _ => false
  | _ => true
  end.

(** The value under [k] replaced by [v], keys untouched. *)
Definition update_entry (k : RString) (v : Object) (entries : list (Object * Object))
  : list (Object * Object) :=
  map (fun kv => if same_key k (fst kv) then (fst kv, v) else kv) entries.

Definition mutate_array (m : Mutation) (a : Object) : Outcome Object :=
  match a with
  | Array elems frozen =>
      match m with
      | SeqPush _ x => rb_ary_push a x
      | SeqStore _ i x =>
          if frozen then Raise FrozenError
          else Ret (Array (<[i := x]> (elems ++ replicate (S i - List.length elems) Qnil)) false)
      | SeqClear _ => if frozen then Raise FrozenError else Ret (Array [] false)
      | ElemAppend _ i suffix =>
          match elems !! i with
          | Some (Str s) =>
              if str_frozen s then Raise FrozenError
              else Ret (Array (<[i := Str (mkString (bytes s ++ suffix) (encoding s) false)]> elems)
                              frozen)
          | _ => Raise NoMethodError
          end
      | _ => Raise NoMethodError
      end
  | _ => Raise NoMethodError
  end.

(** Whether the object the mutation is sent to is there: the mapping
    always is, a sequence when its key is. *)
Definition has_receiver (m : Mutation) (entries : list (Object * Object)) : bool :=
  match m with
  | SeqPush k _ | SeqStore k _ _ | SeqClear k | ElemAppend k _ _ =>
      bool_decide (is_Some (lookup_entry k entries))
  | _ => true
  end.

(** An entry as the property query builds it: a frozen string key, a
    frozen array, and in it strings that are not frozen. *)
Definition frozen_pair (kv : Object * Object) : Prop :=
  (exists k, fst kv = Str k /\ str_frozen k = true)
  /\ (exists elems, snd kv = Array elems true
                    /\ Forall (fun x => exists s, x = Str s /\ str_frozen s = false) elems).

Definition apply (m : Mutation) (h : Object) : Outcome Object :=
  match h with
  | Hash entries frozen =>
      match m with
      | HashStore k v => rb_hash_aset h k v
      | HashDelete k =>
          if frozen then Raise FrozenError
          else Ret (Hash (List.filter (fun kv => negb (same_key k (fst kv))) entries) false)
      | HashClear => if frozen then Raise FrozenError else Ret (Hash [] false)
      | SeqPush k _ | SeqStore k _ _ | SeqClear k | ElemAppend k _ _ =>
          match lookup_entry k entries with
          | Some a => try a' := mutate_array m a in Ret (Hash (update_entry k a' entries) frozen)
          | None => Raise NoMethodError
          end
      end
  | _ => Raise NoMethodError
  end.

End Caller.

(** ** A concrete runtime

    Single-octet strings: a string is its octets, already UTF-8; used to
    run the definitions on examples. *)
Module Octets.
Import TagLib.

Definition upper_byte (b : byte) : byte :=
  let n := Byte.to_N b in
  if ((97 <=? n) && (n <=? 122))%N then default b (Byte.of_N (n - 32)) else b.

Definition runtime (major : Z) : Runtime := {|
  String_length := fun s => List.length (data s);
  String_to8Bit := data;
  String_toCString := data;
  String_upper := fun s => mkStr (map upper_byte (data s)) (type s);
  rb_str_export_to_utf8 := fun _ b => b;
  TAGLIB_MAJOR_VERSION := major;
  String_length_empty := fun _ => eq_refl
|}.

End Octets.

(** ** The marshalling rule for text, as the specification words it

    Binary becomes Bytes; UTF-8 and the UTF-8-compatible single-octet
    encoding are wrapped as they are; Latin-1 is passed through as
    Latin-1; every other encoding (among them the UTF-16 family) is
    re-encoded to UTF-8 first. *)
Module Spec.
Import Ruby TagLib Convert.


(** Splicing, as the specification words it. *)
Definition spliced (resource data : list byte) (start replaceLength : Z) : list byte :=
  take (Z.to_nat start) resource ++ data ++ drop (Z.to_nat (start + replaceLength)) resource.

Definition removed (resource : list byte) (start length : Z) : list byte :=
  take (Z.to_nat start) resource ++ drop (Z.to_nat (start + length)) resource.

End Spec.

(** ** Fixtures *)
Module Fixtures.
Import Byte.

(** A resource of ten octets, each holding its own offset. *)
Definition ten : list byte := [x00; x01; x02; x03; x04; x05; x06; x07; x08; x09].

(** A block to insert. *)
Definition block : list byte := [xaa; xbb; xcc].


(** "a" tagged binary and "b" tagged UTF-8. *)
Definition binary_a : Ruby.RString := Ruby.mkString [x61] Ruby.ASCII_8BIT false.
Definition utf8_b : Ruby.RString := Ruby.mkString [x62] Ruby.UTF_8 false.


(** The key "K" and the value "v" as the library holds them. *)
Definition key_K : TagLib.String := TagLib.mkStr [x4b] TagLib.UTF8.
Definition value_v : TagLib.String := TagLib.mkStr [x76] TagLib.UTF8.

(** A tag with a title only. *)
Definition titled : TagLib.Tag :=
  TagLib.mkTag value_v (TagLib.mkStr [] TagLib.UTF8) (TagLib.mkStr [] TagLib.UTF8)
               (TagLib.mkStr [] TagLib.UTF8) 0 0 (TagLib.mkStr [] TagLib.UTF8).

(** A valid file holding one property, K = ["v"]. *)
Definition file : TagLib.File :=
  TagLib.mkFile true false titled None {[ key_K := [value_v] ]} [] 0.

Definition handle : FileRef.t := FileRef.mk (Some file) None.

(** Updates that empty the property k and set the property b. *)
Definition updates : list (Ruby.Object * Ruby.Object) :=
  [(Ruby.Str (Ruby.mkString [x6b] Ruby.UTF_8 false), Ruby.Array [] false);
   (Ruby.Str utf8_b, Ruby.Array [Ruby.Str binary_a] false)].

(** The caller's key "K", and an exclamation mark to append. *)
Definition caller_K : Ruby.RString := Ruby.mkString [x4b] Ruby.UTF_8 false.
Definition bang : list byte := [x21].

End Fixtures.

(** ** What the adapter leaves alone

    The flag cached at construction and, on the borrowed resource, the
    open/closed state and the answer to [writable?]. *)
Module Borrowed.

Definition flags (s : IOStream.t) : bool * bool * option bool :=
  (IOStream.openReadOnly s, RubyIO.closed (IOStream.io s), RubyIO.writable (IOStream.io s)).

Definition keeps_flags {A} (m : Exn IOStream.t A) : Prop :=
  forall s, flags (snd (m s)) = flags s.

Definition resource_keeps {A} (m : Exn RubyIO.t A) : Prop :=
  forall io, RubyIO.closed (snd (m io)) = RubyIO.closed io
             /\ RubyIO.writable (snd (m io)) = RubyIO.writable io.

End Borrowed.

(** ** convert_ruby_to_taglib.cpp: the read style *)
Module Style.
Import Ruby.

(** [TagLib::AudioProperties::ReadStyle]. *)
Inductive ReadStyle : Type := Fast | Average | Accurate.

Definition rubyObjectToTagLibAudioPropertiesReadStyle (readStyle : Object)
  : Outcome ReadStyle :=
  if negb (test readStyle) then Ret Average
  else
    try readStyleSym := as_Symbol readStyle in
    if String.eqb readStyleSym "fast" then Ret Fast
    else if String.eqb readStyleSym "accurate" then Ret Accurate
    else if String.eqb readStyleSym "average" then Ret Average
    else Raise ArgumentError.

(** The symbols the conversion knows, with their styles. *)
Definition styles : list (string * ReadStyle) :=
  [("fast", Fast); ("accurate", Accurate); ("average", Average)].

End Style.

(** ** Sizes a ByteVector can hold *)
Module Fits.

(** [ByteVector] lengths are [unsigned int]. *)
Definition vector (v : list byte) : Prop := Z.of_nat (length v) < 2 ^ 32.

(** [long long]. *)
Definition long_long (z : Z) : Prop := - 2 ^ 63 <= z < 2 ^ 63.

End Fits.

(** ** Naming what an update touches *)
Module Touched.
Import Ruby TagLib Convert.

(** The key under which [mergeProperties] files an update: the converted
    key as [PropertyMap::replace] upper-cases it. *)
Definition update_key `{Runtime} (k : RString) : TagLib.String :=
  String_upper (rubyStringToTagLibString k).

(** The keys a list of updates names. *)
Fixpoint named_keys `{Runtime} (entries : list (Object * Object)) : list TagLib.String :=
  match entries with
  | [] => []
  | (Str k, _) :: rest => update_key k :: named_keys rest
  | _ :: rest => named_keys rest
  end.

(** The symbols a list of tag updates names. *)
Fixpoint named_fields (entries : list (Object * Object)) : list string :=
  match entries with
  | [] => []
  | (Symbol key, _) :: rest => key :: named_fields rest
  | _ :: rest => named_fields rest
  end.

(** A field of the tag by its key, text or number. *)
Definition tag_field (key : string) (g : Tag) : option (TagLib.String + Z) :=
  if String.eqb key "title" then Some (inl (title g))
  else if String.eqb key "artist" then Some (inl (artist g))
  else if String.eqb key "album" then Some (inl (album g))
  else if String.eqb key "genre" then Some (inl (genre g))
  else if String.eqb key "year" then Some (inr (year g))
  else if String.eqb key "track" then Some (inr (track g))
  else if String.eqb key "comment" then Some (inl (comment g))
  else None.

(** The loop of [tagLibPropertyMapToRubyHash], one property at a time. *)
Definition hash_step `{Runtime} (result : list (Object * Object))
    (property : TagLib.String * StringList) : list (Object * Object) :=
  store_entry (tagLibStringToRubyUTF8String (fst property))
    (freeze (Array (map (fun item => Str (tagLibStringToRubyUTF8String item)) (snd property))
                   false))
    result.

End Touched.

(** ** Sample runs *)
Module Samples.

(** The fixture handle after the fixture updates, current properties
    kept or replaced. *)
Definition merged : FileRef.t :=
  snd (@FileRef.mergeProperties (Octets.runtime 2) Fixtures.updates false Fixtures.handle).

Definition replaced : FileRef.t :=
  snd (@FileRef.mergeProperties (Octets.runtime 2) Fixtures.updates true Fixtures.handle).

(** The file behind a handle, the fixture file when there is none. *)
Definition file_of (s : FileRef.t) : TagLib.File :=
  default Fixtures.file (FileRef.fileRef s).

(** One update, of the property b. *)
Definition update_b : list (Ruby.Object * Ruby.Object) :=
  [(Ruby.Str Fixtures.utf8_b, Ruby.Array [Ruby.Str Fixtures.binary_a] false)].

Definition merged_b : FileRef.t :=
  snd (@FileRef.mergeProperties (Octets.runtime 2) update_b false Fixtures.handle).

(** An update whose key is a symbol, which mergeProperties refuses. *)
Definition symbol_update : list (Ruby.Object * Ruby.Object) :=
  [(Ruby.Str Fixtures.utf8_b, Ruby.Array [] false);
   (Ruby.Symbol "K", Ruby.Array [] false)].

(** "B" and "a" as the library holds them after the merge. *)
Definition key_B : TagLib.String := TagLib.mkStr [Byte.x42] TagLib.UTF8.
Definition value_a : TagLib.String := TagLib.mkStr [Byte.x61] TagLib.Latin1.

End Samples.

(** ** FileRef.cpp: the constructor

    The constructor looks at its first argument through [respond_to],
    [to_path] and [is_a(String)], and hands a path or the adapter to the
    library, whose answer is not the repository's to compute. *)
Module Construct.
Import Ruby TagLib.

(** The first argument as the constructor probes it. *)
Record Argument : Type := mkArgument {
  self : Object;
  responds_to : string -> bool;     (* respond_to *)
  to_path : Object;                 (* what to_path answers *)
  resource : RubyIO.t               (* the object driven as an IO *)
}.

(** [TagLib::FileRef(FileName, bool, ReadStyle)] and
    [TagLib::FileRef(IOStream *, bool, ReadStyle)]. *)
Class Library : Type := {
  FileRef_of_path : list byte -> bool -> Style.ReadStyle -> TagLib.FileRef;
  FileRef_of_stream : IOStream.t -> bool -> Style.ReadStyle -> TagLib.FileRef
}.

(** [IOStream::isIO]. *)
Definition isIO (io : Argument) : bool :=
  responds_to io "tell" && responds_to io "seek" && responds_to io "read".

(** [FileRef::FileRef]. *)
Definition new `{Library} (moved_from_is_nil : bool) (fileOrStream : Argument)
    (readAudioProperties : Object) : Outcome FileRef.t :=
  try style := Style.rubyObjectToTagLibAudioPropertiesReadStyle readAudioProperties in
  if isIO fileOrStream then
    (* handle IO object *)
    let stream := IOStream.new moved_from_is_nil (resource fileOrStream) in
    let fileRef := FileRef_of_stream stream (test readAudioProperties) style in
    if isNull fileRef
    then Ret (FileRef.mk fileRef None)       (* unable to read the stream *)
    else Ret (FileRef.mk fileRef (Some stream))
  else
    try pathStr :=
      (if responds_to fileOrStream "to_path" then as_String (to_path fileOrStream)
       else match self fileOrStream with
            | Str s => Ret s
            | _ => Raise TypeError
            end) in
    if 0 <? Convert.length pathStr then
      let fn := until_nul (Convert.c_str pathStr) in
      Ret (FileRef.mk (FileRef_of_path fn (test readAudioProperties) style) None)
    else
      Ret (FileRef.mk None None).

(** A library that reads nothing: every path and stream gives a null
    reference. *)
Definition blind : Library := {|
  FileRef_of_path := fun _ _ _ => None;
  FileRef_of_stream := fun _ _ _ => None
|}.

(** A plain String argument. *)
Definition of_string (s : RString) : Argument :=
  mkArgument (Str s) (fun _ => false) Qnil (RubyIO.open []).

(** An IO-like argument: answers to tell, seek and read. *)
Definition of_io (io : RubyIO.t) : Argument :=
  mkArgument (Other "IO")
             (fun m => String.eqb m "tell" || String.eqb m "seek" || String.eqb m "read")
             Qnil io.

End Construct.

(** ** More sample runs *)
Module Runs.

(** Tag updates: a title, then a key nobody knows. *)
Definition tag_updates : Ruby.Object :=
  Ruby.Hash [(Ruby.Symbol "title", Ruby.Str Fixtures.utf8_b);
             (Ruby.Symbol "bogus", Ruby.Qnil)] false.

Definition title_update : list (Ruby.Object * Ruby.Object) :=
  [(Ruby.Symbol "title", Ruby.Str Fixtures.utf8_b)].

Definition titled_b : FileRef.t :=
  snd (@FileRef.mergeTagProperties (Octets.runtime 2) (Ruby.Hash title_update false)
         Fixtures.handle).

(** One picture record, and the fixture file holding it under "K". *)
Definition picture : TagLib.VariantMap :=
  [(Fixtures.value_v, TagLib.VByteVector Fixtures.block)].

Definition pictured_file : TagLib.File :=
  TagLib.mkFile true false Fixtures.titled None ∅ [(Fixtures.key_K, [picture])] 0.

Definition pictured : FileRef.t := FileRef.mk (Some pictured_file) None.

End Runs.

(** * Properties *)

(** ** Machine integers *)

Lemma to_offset_id z : - 2 ^ 63 <= z <= OFFSET_MAX -> to_offset z = z.
Proof.
  unfold to_offset, OFFSET_MAX. intros Hz.
  rewrite Z.mod_small by lia. lia.
Qed.

Lemma to_size_id z : 0 <= z < 2 ^ 64 -> to_size z = z.
Proof. unfold to_size. intros Hz. by rewrite Z.mod_small. Qed.

Lemma to_uint_fits z : 0 <= z < 2 ^ 32 -> to_uint z = z.
Proof. unfold to_uint. intros Hz. by rewrite Z.mod_small. Qed.

(** ** The stream adapter on an open resource *)
Section AdapterSteps.
Variables (c : list byte) (p : Z) (w : option bool) (ro : bool).

Let here : IOStream.t := IOStream.mk (RubyIO.mk c p false w) ro.
Let at_ (c' : list byte) (p' : Z) : IOStream.t := IOStream.mk (RubyIO.mk c' p' false w) ro.

Lemma seek_Beginning_run off :
  0 <= off -> IOStream.seek off IOStream.Beginning here = (Ret tt, at_ c off).
Proof.
  intros Hoff. unfold IOStream.seek, IOStream.io_call, RubyIO.seek, RubyIO.guard; cbn.
  destruct (Z.ltb_spec off 0); [lia | done].
Qed.

Lemma seek_Current_run off :
  0 <= p + off -> IOStream.seek off IOStream.Current here = (Ret tt, at_ c (p + off)).
Proof.
  intros Hoff. unfold IOStream.seek, IOStream.io_call, RubyIO.seek, RubyIO.guard; cbn.
  destruct (Z.ltb_spec (p + off) 0); [lia | done].
Qed.

Lemma read_all_run :
  IOStream.io_call RubyIO.read_all here
  = (Ret (drop (Z.to_nat p) c), at_ c (Z.max p (Z.of_nat (length c)))).
Proof. done. Qed.

Lemma write_run b :
  IOStream.io_call (RubyIO.write b) here
  = (Ret tt,
     at_ (take (Z.to_nat p) (RubyIO.pad_to (Z.to_nat p) c) ++ b
            ++ drop (Z.to_nat p + length b) c)
         (p + Z.of_nat (length b))).
Proof. done. Qed.

Lemma truncate_run n :
  0 <= n ->
  IOStream.truncate n here
  = (Ret tt, at_ (take (Z.to_nat n) (RubyIO.pad_to (Z.to_nat n) c)) p).
Proof.
  intros Hn. unfold IOStream.truncate, IOStream.io_call, RubyIO.truncate, RubyIO.guard; cbn.
  destruct (Z.ltb_spec n 0); [lia | done].
Qed.

(** [length()] reports the size and leaves the cursor where it was. *)
Lemma length_restores_cursor :
  0 <= p -> IOStream.length here = (Ret (Z.of_nat (length c)), here).
Proof.
  intros Hp. unfold IOStream.length, IOStream.tell, IOStream.seek, IOStream.io_call, bindM.
  cbn. unfold RubyIO.seek, RubyIO.guard, RubyIO.size. cbn.
  destruct (Z.ltb_spec (Z.of_nat (length c) + 0) 0); [lia |]. cbn.
  destruct (Z.ltb_spec p 0); [lia |]. cbn.
  by rewrite Z.add_0_r.
Qed.

(** [readBlock] at the end of the resource: the empty vector, no error. *)
Lemma readBlock_at_end n :
  0 < n <= OFFSET_MAX -> Z.of_nat (length c) <= p ->
  IOStream.readBlock n here = (Ret [], here).
Proof.
  intros Hn Hp. unfold IOStream.readBlock, IOStream.io_call, bindM.
  rewrite to_offset_id by (unfold OFFSET_MAX in *; lia).
  unfold RubyIO.read, RubyIO.guard. cbn.
  destruct (Z.ltb_spec n 0); [lia |].
  rewrite drop_ge by lia. rewrite take_nil.
  destruct (Z.eqb_spec n 0); [lia | done].
Qed.

End AdapterSteps.

Lemma pad_to_within (n : nat) (c : list byte) :
  (n <= length c)%nat -> RubyIO.pad_to n c = c.
Proof.
  intros Hn. unfold RubyIO.pad_to.
  replace (n - length c)%nat with 0%nat by lia. apply app_nil_r.
Qed.

Ltac step_with lem :=
  rewrite lem by lia; cbv beta iota.

(** C2. For every resource content and every in-bounds start and length,
    removeBlock reads what follows the removed region, writes it back at
    start and truncates to start + len(remainder): the resource then reads
    back as resource[0:start] ++ resource[start+length:]. *)
Theorem removeBlock_removes (c : list byte) (p : Z) (w : option bool) (ro : bool)
    (start len : Z) :
  0 <= start -> 0 <= len ->
  start + len <= Z.of_nat (length c) ->
  Z.of_nat (length c) <= OFFSET_MAX ->
  let remainder := drop (Z.to_nat (start + len)) c in
  let result := Spec.removed c start len in
  IOStream.removeBlock start len (IOStream.mk (RubyIO.mk c p false w) ro)
  = (Ret tt,
     IOStream.mk (RubyIO.mk result (start + Z.of_nat (length remainder)) false w) ro)
  /\ Z.of_nat (length result) = start + Z.of_nat (length remainder)
  /\ fst (RubyIO.read_all (RubyIO.mk result 0 false w)) = Ret result.
Proof.
  intros Hs Hl Hin Hmax remainder result.
  assert (Hdef : remainder = drop (Z.to_nat (start + len)) c) by done.
  assert (Hrem : length remainder = (length c - Z.to_nat (start + len))%nat)
    by (subst remainder; apply length_drop).
  assert (Hres : result = take (Z.to_nat start) c ++ remainder) by done.
  clearbody remainder result. unfold OFFSET_MAX in Hmax.
  assert (Hlen : Z.of_nat (length result) = start + Z.of_nat (length remainder)).
  { rewrite Hres, length_app, length_take. lia. }
  split; [| split; [exact Hlen | done]].
  unfold IOStream.removeBlock, bindM.
  rewrite (to_size_id (start + len)) by lia.
  rewrite (to_offset_id (start + len)) by (unfold OFFSET_MAX; lia).
  step_with seek_Beginning_run.
  rewrite read_all_run; cbv beta iota.
  step_with seek_Beginning_run.
  rewrite <- Hdef. unfold IOStream.String_is_nil; cbn [negb].
  rewrite write_run; cbv beta iota.
  rewrite to_size_id by lia.
  rewrite to_offset_id by (unfold OFFSET_MAX; lia).
  step_with truncate_run.
  do 3 f_equal.
  rewrite (pad_to_within (Z.to_nat start) c) by lia.
  rewrite Hres.
  rewrite pad_to_within by (rewrite !length_app, length_take; lia).
  rewrite app_assoc.
  rewrite take_app_length'; [done |].
  rewrite length_app, length_take. lia.
Qed.

Lemma removeBlock_removes_witness :
  IOStream.removeBlock 3 4 (IOStream.mk (RubyIO.mk Fixtures.ten 0 false None) false)
  = (Ret tt,
     IOStream.mk
       (RubyIO.mk [Byte.x00; Byte.x01; Byte.x02; Byte.x07; Byte.x08; Byte.x09] 6 false None)
       false).
Proof.
  refine (proj1 (removeBlock_removes Fixtures.ten 0 None false 3 4 _ _ _ _)).
  - lia.
  - lia.
  - simpl. lia.
  - unfold OFFSET_MAX. simpl. lia.
Defined.

(** [insert] with a non-empty replaced region: the region is replaced by
    the data and the tail follows it. *)
Lemma insert_with_replace (c data : list byte) (p : Z) (w : option bool) (ro : bool)
    (start replace : Z) :
  0 <= start -> 0 < replace ->
  start + replace <= Z.of_nat (length c) ->
  Z.of_nat (length c) + Z.of_nat (length data) <= OFFSET_MAX ->
  let remainder := drop (Z.to_nat (start + replace)) c in
  IOStream.insert data start replace (IOStream.mk (RubyIO.mk c p false w) ro)
  = (Ret tt,
     IOStream.mk
       (RubyIO.mk (Spec.spliced c data start replace)
                  (start + Z.of_nat (length data) + Z.of_nat (length remainder)) false w)
       ro).
Proof.
  intros Hs Hr Hin Hmax remainder.
  assert (Hdef : remainder = drop (Z.to_nat (start + replace)) c) by done.
  assert (Hrem : length remainder = (length c - Z.to_nat (start + replace))%nat)
    by (subst remainder; apply length_drop).
  unfold Spec.spliced. rewrite <- Hdef.
  clearbody remainder. unfold OFFSET_MAX in Hmax.
  unfold IOStream.insert, IOStream.writeBlock, IOStream.ByteVector_size, bindM.
  step_with seek_Beginning_run.
  destruct (Z.ltb_spec 0 replace) as [_ | ?]; [| lia].
  rewrite (to_offset_id replace) by (unfold OFFSET_MAX; lia).
  step_with seek_Current_run.
  rewrite read_all_run; cbv beta iota.
  step_with seek_Beginning_run.
  rewrite <- Hdef. unfold IOStream.String_is_nil; cbn [negb].
  rewrite write_run; cbv beta iota.
  rewrite write_run; cbv beta iota.
  rewrite (to_size_id (start + _)) by lia.
  rewrite to_size_id by lia.
  rewrite to_offset_id by (unfold OFFSET_MAX; lia).
  step_with truncate_run.
  do 3 f_equal.
  rewrite (pad_to_within (Z.to_nat start) c) by lia.
  set (written := take (Z.to_nat start) c ++ data ++ drop (Z.to_nat start + length data) c).
  assert (Hw : take (Z.to_nat (start + Z.of_nat (length data))) written
               = take (Z.to_nat start) c ++ data).
  { subst written. rewrite app_assoc.
    apply take_app_length'. rewrite length_app, length_take. lia. }
  rewrite (pad_to_within _ written)
    by (subst written; rewrite !length_app, length_take, length_drop; lia).
  rewrite Hw.
  rewrite pad_to_within by (rewrite !length_app, length_take; lia).
  rewrite <- app_assoc.
  rewrite (app_assoc _ remainder), (app_assoc _ (data ++ remainder)).
  apply take_app_length'. rewrite !length_app, length_take. lia.
Qed.

(** [insert] with nothing to replace: the tail is neither read nor
    written back, and the truncation cuts it off. *)
Lemma insert_without_replace (c data : list byte) (p : Z) (w : option bool) (ro : bool)
    (start : Z) :
  0 <= start -> start <= Z.of_nat (length c) ->
  Z.of_nat (length c) + Z.of_nat (length data) <= OFFSET_MAX ->
  IOStream.insert data start 0 (IOStream.mk (RubyIO.mk c p false w) ro)
  = (Ret tt,
     IOStream.mk
       (RubyIO.mk (take (Z.to_nat start) c ++ data) (start + Z.of_nat (length data)) false w)
       ro).
Proof.
  intros Hs Hin Hmax. unfold OFFSET_MAX in Hmax.
  unfold IOStream.insert, IOStream.writeBlock, IOStream.ByteVector_size, bindM.
  step_with seek_Beginning_run.
  change (0 <? 0) with false. cbv beta iota. unfold ret at 1. cbv beta iota.
  step_with seek_Beginning_run.
  unfold IOStream.String_is_nil; cbn [negb].
  rewrite write_run; cbv beta iota.
  rewrite write_run; cbv beta iota.
  change (Z.of_nat (length (@nil byte))) with 0. rewrite !Z.add_0_r.
  rewrite (to_size_id (start + _)) by lia.
  rewrite to_size_id by lia.
  rewrite to_offset_id by (unfold OFFSET_MAX; lia).
  step_with truncate_run.
  do 3 f_equal.
  rewrite (pad_to_within (Z.to_nat start) c) by lia.
  set (written := take (Z.to_nat start) c ++ data ++ drop (Z.to_nat start + length data) c).
  assert (Hw : take (Z.to_nat (start + Z.of_nat (length data))) written
               = take (Z.to_nat start) c ++ data).
  { subst written. rewrite app_assoc.
    apply take_app_length'. rewrite length_app, length_take. lia. }
  rewrite (pad_to_within _ written)
    by (subst written; rewrite !length_app, length_take, length_drop; lia).
  rewrite Hw. cbn [app].
  rewrite pad_to_within by (rewrite !length_app, length_take; lia).
  apply take_app_length'. rewrite length_app, length_take. lia.
Qed.

(** The fixture of the specification, scaled down: two octets replaced by
    three, the tail shifted by one. *)
Example insert_fixture :
  IOStream.insert Fixtures.block 4 2 (IOStream.mk (RubyIO.open Fixtures.ten) false)
  = (Ret tt,
     IOStream.mk
       (RubyIO.mk [Byte.x00; Byte.x01; Byte.x02; Byte.x03; Byte.xaa; Byte.xbb; Byte.xcc;
                   Byte.x06; Byte.x07; Byte.x08; Byte.x09] 11 false None)
       false).
Proof. vm_compute. reflexivity. Qed.

(** C1. insert(data, start, replace) followed by reading the resource
    back should give resource[0:start] ++ data ++ resource[start+replace:],
    also for replace = 0.  Evaluated at replace = 0: the adapter skips the
    read of the remainder, overwrites from start and truncates right
    after the data, so the octets that followed start are gone, where the
    splice keeps all of them. *)
Theorem insert_without_replace_loses_tail :
  IOStream.insert Fixtures.block 4 0 (IOStream.mk (RubyIO.open Fixtures.ten) false)
  = (Ret tt,
     IOStream.mk
       (RubyIO.mk [Byte.x00; Byte.x01; Byte.x02; Byte.x03; Byte.xaa; Byte.xbb; Byte.xcc]
                  7 false None)
       false)
  /\ Spec.spliced Fixtures.ten Fixtures.block 4 0
     = [Byte.x00; Byte.x01; Byte.x02; Byte.x03; Byte.xaa; Byte.xbb; Byte.xcc;
        Byte.x04; Byte.x05; Byte.x06; Byte.x07; Byte.x08; Byte.x09].
Proof. split; vm_compute; reflexivity. Qed.

(** Nothing the adapter does to the resource touches the flag. *)
Lemma readOnly_cached {A} (m : Exn RubyIO.t A) (s : IOStream.t) :
  IOStream.readOnly (snd (IOStream.io_call m s)) = IOStream.readOnly s.
Proof. unfold IOStream.io_call. by destruct (m (IOStream.io s)). Qed.

(** C3. readOnly() should be true exactly when the resource did not
    declare itself writable at construction.  The constructor stores the
    answer to [writable?] itself: a resource without the method, or one
    that answers false, is reported as not read-only whatever the move
    left in the parameter, and a resource that answers true is reported
    read-only when the parameter still names it. *)
Theorem readOnly_is_the_writable_answer :
  (forall moved c p cl,
      IOStream.readOnly (IOStream.new moved (RubyIO.mk c p cl None)) = false)
  /\ (forall moved c p cl,
      IOStream.readOnly (IOStream.new moved (RubyIO.mk c p cl (Some false))) = false)
  /\ (forall c p cl,
      IOStream.readOnly (IOStream.new false (RubyIO.mk c p cl (Some true))) = true).
Proof. repeat split; intros; try destruct moved; reflexivity. Qed.

(** ** Marshalling: dynamic to typed *)
Section DynamicToTyped.
Import Ruby TagLib Convert.
Context `{Runtime}.

Lemma mapO_strings {B} (g : RString -> B) (l : list RString) :
  mapO (fun item => try str := as_String item in Ret (g str)) (map Str l) = Ret (map g l).
Proof. induction l as [| s l IH]; [done |]. cbn. by rewrite IH. Qed.

(** A sequence that starts with a string holds strings: any other kind
    of element makes the conversion raise. *)
Lemma mapO_strings_rejects {B} (g : RString -> B) (l : list RString) (x : Object)
    (rest : list Object) :
  (forall s, x <> Str s) ->
  mapO (fun item => try str := as_String item in Ret (g str)) (map Str l ++ x :: rest)
  = Raise TypeError.
Proof.
  intros Hx. induction l as [| s l IH]; cbn.
  - destruct x; try done. by destruct (Hx s).
  - by rewrite IH.
Qed.

(** C4. The conversion of a Sequence looks at the first element only: a
    binary first string makes the whole sequence of strings a
    ByteVectorList, whatever the encoding of the later ones; a non-binary
    first string makes it a StringList; any other first element has every
    element converted on its own into a list of variants; the empty
    sequence is the empty variant. *)
Theorem sequence_shape_from_first_element :
  rubyArrayToTagLibVariant [] = Ret Void
  /\ (forall first rest,
        isBinaryEncoding first = true ->
        rubyArrayToTagLibVariant (map Str (first :: rest))
        = Ret (VByteVectorList
                 (map (fun s => ByteVector_of_data (c_str s) (length s)) (first :: rest))))
  /\ (forall first rest,
        isBinaryEncoding first = false ->
        rubyArrayToTagLibVariant (map Str (first :: rest))
        = Ret (VStringList (map (fun s => String_of_cstr (c_str s) UTF8) (first :: rest))))
  /\ (forall first rest,
        (forall s, first <> Str s) ->
        rubyArrayToTagLibVariant (first :: rest)
        = try l := mapO rubyObjectToTagLibVariant (first :: rest) in Ret (VVariantList l))
  /\ (forall elems frozen,
        rubyObjectToTagLibVariant (Array elems frozen) = rubyArrayToTagLibVariant elems).
Proof.
  split; [done |]. split; [| split; [| split]].
  - intros first rest Hbin.
    unfold rubyArrayToTagLibVariant, rubyArrayToTagLibVariant_body.
    cbn [map]. rewrite Hbin.
    change (Str first :: map Str rest) with (map Str (first :: rest)).
    unfold rubyArrayToTagLibByteVectorList. by rewrite mapO_strings.
  - intros first rest Hbin.
    unfold rubyArrayToTagLibVariant, rubyArrayToTagLibVariant_body.
    cbn [map]. rewrite Hbin.
    change (Str first :: map Str rest) with (map Str (first :: rest)).
    unfold rubyArrayToTagLibStringList. by rewrite mapO_strings.
  - intros first rest Hfirst.
    unfold rubyArrayToTagLibVariant, rubyArrayToTagLibVariant_body.
    destruct first; try done. by destruct (Hfirst s).
  - done.
Qed.

(** With a binary first string, a later element that is not a string is
    refused. *)
Lemma sequence_of_bytes_rejects_other_kinds (first : RString) (l : list RString)
    (x : Object) (rest : list Object) :
  isBinaryEncoding first = true ->
  (forall s, x <> Str s) ->
  rubyArrayToTagLibVariant (map Str (first :: l) ++ x :: rest) = Raise TypeError.
Proof.
  intros Hbin Hx.
  unfold rubyArrayToTagLibVariant, rubyArrayToTagLibVariant_body.
  cbn [map app]. rewrite Hbin.
  change (Str first :: map Str l ++ x :: rest) with (map Str (first :: l) ++ x :: rest).
  unfold rubyArrayToTagLibByteVectorList. by rewrite mapO_strings_rejects.
Qed.



End DynamicToTyped.



Lemma sequence_shape_from_first_element_witness :
  Convert.rubyArrayToTagLibVariant
    [Ruby.Str Fixtures.binary_a; Ruby.Str Fixtures.utf8_b]
  = Ret (TagLib.VByteVectorList [[Byte.x61]; [Byte.x62]]).
Proof.
  exact (proj1 (proj2 sequence_shape_from_first_element)
           Fixtures.binary_a [Fixtures.utf8_b] eq_refl).
Defined.

(** ** The handle *)
Section Handle.
Import Ruby TagLib Convert FileRef.
Context `{Runtime}.

Lemma raiseInvalid_null (s : FileRef.t) :
  isNull (fileRef s) = true -> raiseInvalid s = (Raise TagLibError, s).
Proof.
  intros Hnull. unfold raiseInvalid, FileRef.isValid. rewrite Hnull.
  by destruct (fileRef s).
Qed.

Lemma raiseInvalid_valid (s : FileRef.t) (f : File) :
  fileRef s = Some f -> TagLib.isValid f = true -> raiseInvalid s = (Ret f, s).
Proof.
  intros Hf Hv. unfold raiseInvalid, FileRef.isValid. rewrite Hf. cbn. by rewrite Hv.
Qed.

(** Whatever lets [raiseInvalid] through is a valid handle. *)
Lemma raiseInvalid_Ret (s s1 : FileRef.t) (f : File) :
  raiseInvalid s = (Ret f, s1) ->
  s1 = s /\ fileRef s = Some f /\ TagLib.isValid f = true.
Proof.
  unfold raiseInvalid, FileRef.isValid, isNull.
  destruct (fileRef s) as [f0 |]; [| done].
  destruct (TagLib.isValid f0) eqn:Hv; cbn; [| done].
  by intros [= -> ->].
Qed.

Lemma close_invalidates (s : FileRef.t) :
  fst (close s) = Ret tt /\ isNull (fileRef (snd (close s))) = true.
Proof.
  unfold close. destruct (isNull (fileRef s)) eqn:Hnull; cbn; by rewrite ?Hnull.
Qed.

(** C9. Once the wrapper is closed, each of tag, audioProperties,
    properties, mergeProperties, mergeTagProperties, complexProperty,
    complexPropertyKeys, mergeComplexProperties, isReadOnly and save
    raises the invalid-handle error and leaves the state as it is: the
    check comes before any use of the handle. *)
Theorem closed_handle_refuses (s : FileRef.t) :
  let closed := snd (close s) in
  fst (close s) = Ret tt
  /\ FileRef.isValid closed = false
  /\ FileRef.tag closed = (Raise TagLibError, closed)
  /\ FileRef.audioProperties closed = (Raise TagLibError, closed)
  /\ FileRef.properties closed = (Raise TagLibError, closed)
  /\ (forall entries replace_all,
        mergeProperties entries replace_all closed = (Raise TagLibError, closed))
  /\ (forall in_obj, mergeTagProperties in_obj closed = (Raise TagLibError, closed))
  /\ (forall key, complexProperty key closed = (Raise TagLibError, closed))
  /\ complexPropertyKeys closed = (Raise TagLibError, closed)
  /\ (forall entries replace_all,
        mergeComplexProperties entries replace_all closed = (Raise TagLibError, closed))
  /\ isReadOnly closed = (Raise TagLibError, closed)
  /\ save closed = (Raise TagLibError, closed).
Proof.
  intros closed.
  destruct (close_invalidates s) as [Hret Hnull]. fold closed in Hnull.
  pose proof (raiseInvalid_null closed Hnull) as Hraise.
  split; [exact Hret |].
  split; [unfold FileRef.isValid; by rewrite Hnull |].
  repeat split; intros;
    unfold FileRef.tag, FileRef.audioProperties, FileRef.properties, mergeProperties,
      mergeTagProperties, complexProperty, complexPropertyKeys, mergeComplexProperties,
      isReadOnly, save, bindM;
    by rewrite Hraise.
Qed.

(** *** mergeTagProperties *)

Lemma mergeTagProperty_unknown (key : string) (value : Object) (g : Tag) :
  key ∉ tag_keys -> mergeTagProperty key value g = Raise (KeyError key).
Proof.
  intros Hkey. unfold mergeTagProperty.
  repeat match goal with
         | |- context [String.eqb key ?k] =>
             destruct (String.eqb_spec key k) as [-> | _];
             [exfalso; apply Hkey; unfold tag_keys; set_solver |]
         end.
  done.
Qed.


Lemma mergeTagProperty_accepts (key : string) (value : Object) (g g' : Tag) :
  mergeTagProperty key value g = Ret g' -> key ∈ tag_keys.
Proof.
  intros Hret. destruct (decide (key ∈ tag_keys)) as [| Hnot]; [done |].
  by rewrite (mergeTagProperty_unknown key value g Hnot) in Hret.
Qed.

Lemma mergeTagProperties_loop_app (pre rest : list (Object * Object)) (g g' : Tag) :
  mergeTagProperties_loop pre g = (Ret tt, g') ->
  mergeTagProperties_loop (pre ++ rest) g = mergeTagProperties_loop rest g'.
Proof.
  revert g. induction pre as [| [k v] pre IH]; intros g; cbn.
  - by intros [= ->].
  - destruct (as_Symbol k); [| done].
    destruct (mergeTagProperty _ v g); [apply IH | done].
Qed.



End Handle.


(** ** Marshalling: absence of an optional tag field *)
Section Absence.
Import Ruby TagLib Convert FileRef.
Context `{Runtime}.

Lemma empty_string_is_nil (t : StringType) :
  tagLibStringToNonEmptyRubyUTF8String (String_of_cstr [] t) = Qnil.
Proof.
  unfold tagLibStringToNonEmptyRubyUTF8String. by rewrite String_length_empty.
Qed.

(** C7. Absence is stable under one round trip.  Typed to dynamic: a
    string of length zero and the integer zero become nil.  Dynamic to
    typed: nil becomes the empty string and zero.  Hence nil written to any
    of the seven tag fields reads back as nil, and an absent field read
    and written back is absent still. *)
Theorem absence_round_trip :
  (forall s, String_length s = 0%nat -> tagLibStringToNonEmptyRubyUTF8String s = Qnil)
  /\ uintToNonZeroRubyInteger 0 = Qnil
  /\ rubyStringOrNilToTagLibString Qnil = Ret (String_of_cstr [] UTF8)
  /\ rubyIntegerOrNilToUInt Qnil = Ret 0
  /\ (try s := rubyStringOrNilToTagLibString Qnil in
      Ret (tagLibStringToNonEmptyRubyUTF8String s)) = Ret Qnil
  /\ (try n := rubyIntegerOrNilToUInt Qnil in Ret (uintToNonZeroRubyInteger n)) = Ret Qnil
  /\ (forall s, String_length s = 0%nat ->
        exists s', rubyStringOrNilToTagLibString (tagLibStringToNonEmptyRubyUTF8String s)
                   = Ret s' /\ String_length s' = 0%nat)
  /\ rubyIntegerOrNilToUInt (uintToNonZeroRubyInteger 0) = Ret 0
  /\ (forall key g,
        key ∈ tag_keys ->
        exists g', mergeTagProperty key Qnil g = Ret g'
                   /\ member key (AudioTag_new g') = Some Qnil).
Proof.
  assert (Hnil : forall s, String_length s = 0%nat ->
                           tagLibStringToNonEmptyRubyUTF8String s = Qnil).
  { intros s Hs. unfold tagLibStringToNonEmptyRubyUTF8String. by rewrite Hs. }
  repeat split; try done.
  - cbn. by rewrite empty_string_is_nil.
  - intros s Hs. rewrite (Hnil s Hs). eexists. split; [done |].
    apply String_length_empty.
  - intros key g. unfold tag_keys. rewrite !elem_of_cons, elem_of_nil.
    intros Hkey. decompose [or] Hkey; subst; try done;
      (eexists; split; [reflexivity |]); cbn; by rewrite ?empty_string_is_nil.
Qed.

End Absence.

Lemma absence_round_trip_witness :
  @Convert.tagLibStringToNonEmptyRubyUTF8String (Octets.runtime 2)
    (TagLib.mkStr [] TagLib.Latin1) = Ruby.Qnil.
Proof.
  exact (proj1 (@absence_round_trip (Octets.runtime 2)) (TagLib.mkStr [] TagLib.Latin1) eq_refl).
Defined.

(** ** The property map *)
Section Properties.
Import Ruby TagLib Convert FileRef.
Context `{Runtime}.

Lemma removeEmpty_lookup (m : PropertyMap) (key : TagLib.String) (values : StringList) :
  PropertyMap_removeEmpty m !! key = Some values <-> m !! key = Some values /\ values <> [].
Proof. unfold PropertyMap_removeEmpty. by rewrite map_lookup_filter_Some. Qed.

Lemma rubyObjectToTagLibStringList_strings (l : list RString) (frozen : bool) :
  rubyObjectToTagLibStringList (Array (map Str l) frozen)
  = Ret (map (fun s => String_of_cstr (c_str s) Latin1) l).
Proof. cbn. apply mapO_strings. Qed.

Lemma mergeProperties_loop_total (entries : list (Object * Object)) (m : PropertyMap) :
  Forall well_typed_update entries ->
  exists merged, mergeProperties_loop entries m = Ret merged.
Proof.
  intros Hall. revert m.
  induction Hall as [| [k v] entries (key & Hk & Hv) _ IH]; intros m; [by eexists |].
  cbn in Hk, Hv. subst k. cbn [mergeProperties_loop as_String bindO].
  destruct Hv as [(l & frozen & ->) | (s & ->)].
  - rewrite rubyObjectToTagLibStringList_strings. cbn [bindO]. apply IH.
  - cbn. apply IH.
Qed.

(** C6. What a completed mergeProperties stores is the merged map with
    the empty sequences filtered out: no key of the stored map has an
    empty sequence, whatever the updates and whether or not the current
    properties were kept.  On a valid handle, with string keys and
    string or array-of-strings values, the call completes. *)
Theorem mergeProperties_no_empty_values :
  (forall s s' entries replace_all,
      mergeProperties entries replace_all s = (Ret tt, s') ->
      exists f f' merged,
        fileRef s = Some f /\ fileRef s' = Some f'
        /\ mergeProperties_loop entries
             (if negb replace_all then TagLib.properties f else ∅) = Ret merged
        /\ TagLib.properties f' = PropertyMap_removeEmpty merged
        /\ (forall key values,
              TagLib.properties f' !! key = Some values
              <-> merged !! key = Some values /\ values <> [])
        /\ (forall key, TagLib.properties f' !! key <> Some []))
  /\ (forall s f entries replace_all,
        fileRef s = Some f -> TagLib.isValid f = true ->
        Forall well_typed_update entries ->
        exists s', mergeProperties entries replace_all s = (Ret tt, s')).
Proof.
  split.
  - intros s s' entries replace_all.
    unfold mergeProperties, bindM.
    destruct (raiseInvalid s) as [[f | e] s1] eqn:Hvalid; [| done].
    apply raiseInvalid_Ret in Hvalid as (-> & Hf & _).
    unfold liftO.
    destruct (mergeProperties_loop entries _) as [merged | e] eqn:Hloop; [| done].
    unfold set_file. intros [= <-]. cbn.
    exists f, (with_properties (PropertyMap_removeEmpty merged) f), merged.
    do 4 (split; [done |]). cbn. split.
    + intros key values. apply removeEmpty_lookup.
    + intros key Hkey. by apply removeEmpty_lookup in Hkey as [_ ?].
  - intros s f entries replace_all Hf Hv Hall.
    unfold mergeProperties, bindM. rewrite (raiseInvalid_valid s f Hf Hv).
    destruct (mergeProperties_loop_total entries
                (if negb replace_all then TagLib.properties f else ∅) Hall)
      as [merged Hloop].
    unfold liftO. rewrite Hloop. by eexists.
Qed.

End Properties.

Lemma mergeProperties_no_empty_values_witness :
  exists f f' merged,
    FileRef.fileRef Fixtures.handle = Some f
    /\ FileRef.fileRef
         (snd (@FileRef.mergeProperties (Octets.runtime 2) Fixtures.updates false
                 Fixtures.handle)) = Some f'
    /\ @FileRef.mergeProperties_loop (Octets.runtime 2) Fixtures.updates
         (if negb false then TagLib.properties f else ∅) = Ret merged
    /\ TagLib.properties f' = TagLib.PropertyMap_removeEmpty merged
    /\ (forall key values,
          TagLib.properties f' !! key = Some values
          <-> merged !! key = Some values /\ values <> [])
    /\ (forall key, TagLib.properties f' !! key <> Some []).
Proof.
  refine (proj1 (@mergeProperties_no_empty_values (Octets.runtime 2))
            Fixtures.handle _ Fixtures.updates false _).
  reflexivity.
Defined.

(** ** The returned property map *)
Section ReturnedMap.
Import Ruby TagLib Convert FileRef Caller.
Context `{Runtime}.

Lemma store_entry_frozen (k : RString) (v : Object) (entries : list (Object * Object)) :
  (exists elems, v = Array elems true
                 /\ Forall (fun x => exists s, x = Str s /\ str_frozen s = false) elems) ->
  Forall frozen_pair entries ->
  Forall frozen_pair (store_entry k v entries).
Proof.
  intros Hv. induction 1 as [| [k' v'] entries [Hk' Hv'] Hrest IH]; cbn.
  - constructor; [| constructor]. split; [by eexists | done].
  - destruct (same_key k k'); constructor; try done.
Qed.

Lemma fresh_strings_unfrozen (l : StringList) :
  Forall (fun x => exists s, x = Str s /\ str_frozen s = false)
         (map (fun item => Str (tagLibStringToRubyUTF8String item)) l).
Proof. apply Forall_map, Forall_true. intros item. by eexists. Qed.

Lemma tagLibPropertyMapToRubyHash_frozen (properties : PropertyMap) :
  exists entries,
    tagLibPropertyMapToRubyHash properties = Hash entries true
    /\ Forall frozen_pair entries.
Proof.
  unfold tagLibPropertyMapToRubyHash. eexists. split; [reflexivity |].
  generalize (map_to_list properties) as l.
  assert (Hnil : Forall frozen_pair []) by constructor.
  revert Hnil. generalize (@nil (Object * Object)) as acc.
  intros acc Hacc l. revert acc Hacc.
  induction l as [| property l IH]; intros acc Hacc; [done |].
  cbn [fold_left]. apply IH. apply store_entry_frozen; [| done].
  eexists. split; [reflexivity | apply fresh_strings_unfrozen].
Qed.

Lemma lookup_entry_frozen (k : RString) (entries : list (Object * Object)) (a : Object) :
  Forall frozen_pair entries -> lookup_entry k entries = Some a ->
  exists elems, a = Array elems true.
Proof.
  intros Hall. unfold lookup_entry.
  destruct (List.find _ entries) as [kv |] eqn:Hfind; [| done].
  intros [= <-]. apply find_some in Hfind as [Hin _].
  apply list_elem_of_In in Hin.
  rewrite Forall_forall in Hall. destruct (Hall kv Hin) as [_ (elems & -> & _)].
  by eexists.
Qed.

Lemma frozen_containers_refuse (entries : list (Object * Object)) (m : Mutation) :
  Forall frozen_pair entries -> on_container m = true ->
  apply m (Hash entries true)
  = Raise (if has_receiver m entries then FrozenError else NoMethodError).
Proof.
  intros Hall Hm. destruct m as [k v | k | | k x | k i x | k | k i suffix];
    try done; cbn;
    (destruct (lookup_entry k entries) as [a |] eqn:Hlook;
     [ destruct (lookup_entry_frozen k entries a Hall Hlook) as [elems ->];
       rewrite bool_decide_true by done; done
     | rewrite bool_decide_false by (by intros [? ?]); done ]).
Qed.

(** C10, as the code has it.  On a valid handle the properties query
    returns a frozen mapping whose keys are frozen strings and whose
    values are frozen sequences: every mutation sent to the mapping or to
    one of its sequences raises.  The strings inside the sequences are
    not frozen. *)
Theorem properties_frozen_containers (s : FileRef.t) (f : File) :
  fileRef s = Some f -> TagLib.isValid f = true ->
  exists entries,
    FileRef.properties s = (Ret (Hash entries true), s)
    /\ Forall frozen_pair entries
    /\ (forall m, on_container m = true ->
                  apply m (Hash entries true)
                  = Raise (if has_receiver m entries then FrozenError else NoMethodError)).
Proof.
  intros Hf Hv.
  destruct (tagLibPropertyMapToRubyHash_frozen (TagLib.properties f)) as (entries & Hh & Hall).
  exists entries. split; [| split; [done |]].
  - unfold FileRef.properties, bindM. rewrite (raiseInvalid_valid s f Hf Hv).
    unfold ret. by rewrite Hh.
  - intros m Hm. by apply frozen_containers_refuse.
Qed.

End ReturnedMap.

Lemma properties_frozen_containers_witness :
  exists entries,
    @FileRef.properties (Octets.runtime 2) Fixtures.handle
    = (Ret (Ruby.Hash entries true), Fixtures.handle)
    /\ Forall Caller.frozen_pair entries
    /\ (forall m, Caller.on_container m = true ->
                  Caller.apply m (Ruby.Hash entries true)
                  = Raise (if Caller.has_receiver m entries
                           then FrozenError else NoMethodError)).
Proof.
  exact (@properties_frozen_containers (Octets.runtime 2) Fixtures.handle Fixtures.file
           eq_refl eq_refl).
Defined.

(** C10, as stated: the caller appends "!" to the string held under "K"
    in the map the query returned; the call succeeds and the map now
    shows "v!". *)
Lemma returned_strings_are_mutable :
  bindO (fst (@FileRef.properties (Octets.runtime 2) Fixtures.handle))
        (Caller.apply (Caller.ElemAppend Fixtures.caller_K 0 Fixtures.bang))
  = Ret (Ruby.Hash
           [(Ruby.Str (Ruby.mkString [Byte.x4b] Ruby.UTF_8 true),
             Ruby.Array [Ruby.Str (Ruby.mkString [Byte.x76; Byte.x21] Ruby.UTF_8 false)] true)]
           true).
Proof. vm_compute. reflexivity. Qed.

(** * Further properties of the code *)

(** ** The stream adapter *)

(** [removeBlock] for any start inside the resource, the region possibly
    running past the end. *)
Lemma removeBlock_run (c : list byte) (p : Z) (w : option bool) (ro : bool)
    (start len : Z) :
  0 <= start <= Z.of_nat (length c) -> 0 <= len ->
  start + len <= OFFSET_MAX ->
  Z.of_nat (length c) <= OFFSET_MAX ->
  IOStream.removeBlock start len (IOStream.mk (RubyIO.mk c p false w) ro)
  = (Ret tt,
     IOStream.mk
       (RubyIO.mk (Spec.removed c start len)
          (start + Z.of_nat (length (drop (Z.to_nat (start + len)) c))) false w)
       ro).
Proof.
  intros Hs Hl Hfit Hmax. unfold Spec.removed.
  set (remainder := drop (Z.to_nat (start + len)) c).
  assert (Hdef : remainder = drop (Z.to_nat (start + len)) c) by done.
  assert (Hrem : length remainder = (length c - Z.to_nat (start + len))%nat)
    by (subst remainder; apply length_drop).
  clearbody remainder. unfold OFFSET_MAX in Hmax, Hfit.
  unfold IOStream.removeBlock, bindM.
  rewrite (to_size_id (start + len)) by lia.
  rewrite (to_offset_id (start + len)) by (unfold OFFSET_MAX; lia).
  step_with seek_Beginning_run.
  rewrite read_all_run; cbv beta iota.
  step_with seek_Beginning_run.
  rewrite <- Hdef. unfold IOStream.String_is_nil; cbn [negb].
  rewrite write_run; cbv beta iota.
  rewrite to_size_id by lia.
  rewrite to_offset_id by (unfold OFFSET_MAX; lia).
  step_with truncate_run.
  do 3 f_equal.
  rewrite (pad_to_within (Z.to_nat start) c) by lia.
  rewrite pad_to_within by (rewrite !length_app, length_take; lia).
  rewrite app_assoc.
  rewrite take_app_length'; [done |].
  rewrite length_app, length_take. lia.
Qed.

(** X1. With a non-empty region to replace, inside the resource, insert
    leaves resource[0:start] ++ data ++ resource[start+replace:], of
    length start + len(data) + len(remainder), and the cursor right after
    the rewritten tail. *)
Theorem insert_replaces_region (c data : list byte) (p : Z) (w : option bool) (ro : bool)
    (start replace : Z) :
  0 <= start -> 0 < replace ->
  start + replace <= Z.of_nat (length c) ->
  Z.of_nat (length c) + Z.of_nat (length data) <= OFFSET_MAX ->
  let remainder := drop (Z.to_nat (start + replace)) c in
  let result := take (Z.to_nat start) c ++ data ++ remainder in
  IOStream.insert data start replace (IOStream.mk (RubyIO.mk c p false w) ro)
  = (Ret tt,
     IOStream.mk
       (RubyIO.mk result (start + Z.of_nat (length data) + Z.of_nat (length remainder))
                  false w)
       ro)
  /\ Z.of_nat (length result)
     = Z.of_nat (length c) + Z.of_nat (length data) - replace.
Proof.
  intros Hs Hr Hin Hmax remainder result. split.
  - exact (insert_with_replace c data p w ro start replace Hs Hr Hin Hmax).
  - subst result remainder.
    rewrite !length_app, length_take, length_drop. lia.
Qed.

Lemma insert_replaces_region_witness :
  IOStream.insert Fixtures.block 4 2 (IOStream.mk (RubyIO.mk Fixtures.ten 9 false None) true)
  = (Ret tt,
     IOStream.mk
       (RubyIO.mk [Byte.x00; Byte.x01; Byte.x02; Byte.x03; Byte.xaa; Byte.xbb; Byte.xcc;
                   Byte.x06; Byte.x07; Byte.x08; Byte.x09] 11 false None)
       true).
Proof.
  refine (proj1 (insert_replaces_region Fixtures.ten Fixtures.block 9 None true 4 2 _ _ _ _)).
  - lia.
  - lia.
  - simpl. lia.
  - unfold OFFSET_MAX. simpl. lia.
Defined.

(** X2. With nothing to replace, insert writes the data over what follows
    start and truncates right behind it: whatever the resource held from
    start on is gone, and the resource is resource[0:start] ++ data. *)
Theorem insert_zero_replace_truncates (c data : list byte) (p : Z) (w : option bool)
    (ro : bool) (start : Z) :
  0 <= start -> start <= Z.of_nat (length c) ->
  Z.of_nat (length c) + Z.of_nat (length data) <= OFFSET_MAX ->
  IOStream.insert data start 0 (IOStream.mk (RubyIO.mk c p false w) ro)
  = (Ret tt,
     IOStream.mk
       (RubyIO.mk (take (Z.to_nat start) c ++ data) (start + Z.of_nat (length data)) false w)
       ro)
  /\ Z.of_nat (length (take (Z.to_nat start) c ++ data)) = start + Z.of_nat (length data).
Proof.
  intros Hs Hin Hmax. split.
  - exact (insert_without_replace c data p w ro start Hs Hin Hmax).
  - rewrite length_app, length_take. lia.
Qed.

Lemma insert_zero_replace_truncates_witness :
  IOStream.insert Fixtures.block 9 0 (IOStream.mk (RubyIO.mk Fixtures.ten 0 false None) false)
  = (Ret tt,
     IOStream.mk
       (RubyIO.mk [Byte.x00; Byte.x01; Byte.x02; Byte.x03; Byte.x04; Byte.x05; Byte.x06;
                   Byte.x07; Byte.x08; Byte.xaa; Byte.xbb; Byte.xcc] 12 false None)
       false).
Proof.
  refine (proj1 (insert_zero_replace_truncates Fixtures.ten Fixtures.block 0 None false 9 _ _ _)).
  - lia.
  - simpl. lia.
  - unfold OFFSET_MAX. simpl. lia.
Defined.

(** X3. A region that starts inside the resource and reaches its end or
    runs past it: removeBlock finds nothing to move and cuts the resource
    at start. *)
Theorem removeBlock_to_the_end (c : list byte) (p : Z) (w : option bool) (ro : bool)
    (start len : Z) :
  0 <= start <= Z.of_nat (length c) ->
  Z.of_nat (length c) <= start + len ->
  start + len <= OFFSET_MAX ->
  IOStream.removeBlock start len (IOStream.mk (RubyIO.mk c p false w) ro)
  = (Ret tt, IOStream.mk (RubyIO.mk (take (Z.to_nat start) c) start false w) ro).
Proof.
  intros Hs Hend Hfit.
  rewrite removeBlock_run by (unfold OFFSET_MAX in *; lia).
  unfold Spec.removed. rewrite drop_ge by lia.
  by rewrite app_nil_r, Z.add_0_r.
Qed.

Lemma removeBlock_to_the_end_witness :
  IOStream.removeBlock 7 100 (IOStream.mk (RubyIO.mk Fixtures.ten 0 false None) false)
  = (Ret tt,
     IOStream.mk
       (RubyIO.mk [Byte.x00; Byte.x01; Byte.x02; Byte.x03; Byte.x04; Byte.x05; Byte.x06]
                  7 false None)
       false).
Proof.
  refine (removeBlock_to_the_end Fixtures.ten 0 None false 7 100 _ _ _).
  - simpl. lia.
  - simpl. lia.
  - unfold OFFSET_MAX. lia.
Defined.

(** [readBlock] on an open resource that fits a ByteVector. *)
Lemma readBlock_run (c : list byte) (p : Z) (w : option bool) (ro : bool) (n : Z) :
  0 <= p -> 0 <= n <= OFFSET_MAX -> Z.of_nat (length c) < 2 ^ 32 ->
  let block := take (Z.to_nat n) (drop (Z.to_nat p) c) in
  IOStream.readBlock n (IOStream.mk (RubyIO.mk c p false w) ro)
  = (Ret block, IOStream.mk (RubyIO.mk c (p + Z.of_nat (length block)) false w) ro).
Proof.
  intros Hp Hn Hc block.
  assert (Hblock : (length block <= length c)%nat).
  { subst block. rewrite length_take, length_drop. lia. }
  unfold IOStream.readBlock, IOStream.io_call, bindM.
  rewrite to_offset_id by (unfold OFFSET_MAX in *; lia).
  unfold RubyIO.read, RubyIO.guard. cbn.
  destruct (Z.ltb_spec n 0); [lia |].
  fold block. destruct block as [| b block'] eqn:Hb.
  - cbn. rewrite Z.add_0_r. by destruct (n =? 0).
  - cbn -[take Z.of_nat Z.to_nat to_uint]. unfold ret. do 2 f_equal.
    unfold IOStream.ByteVector_size.
    rewrite to_uint_fits by lia. rewrite Nat2Z.id. by rewrite take_ge.
Qed.

(** X4. length() answers the size of the resource and leaves the cursor
    exactly where it was, also when the cursor stands past the end. *)
Theorem length_keeps_cursor (c : list byte) (p : Z) (w : option bool) (ro : bool) :
  0 <= p ->
  IOStream.length (IOStream.mk (RubyIO.mk c p false w) ro)
  = (Ret (Z.of_nat (length c)), IOStream.mk (RubyIO.mk c p false w) ro).
Proof. apply length_restores_cursor. Qed.

Lemma length_keeps_cursor_witness :
  IOStream.length (IOStream.mk (RubyIO.mk Fixtures.ten 25 false None) false)
  = (Ret 10, IOStream.mk (RubyIO.mk Fixtures.ten 25 false None) false).
Proof. refine (length_keeps_cursor Fixtures.ten 25 None false _). lia. Defined.

(** X5. readBlock(n) returns the octets from the cursor on, at most n of
    them, and moves the cursor by what it returned; at or past the end of
    the resource it returns the empty vector, raises nothing and leaves
    the cursor. *)
Theorem readBlock_reads (c : list byte) (p : Z) (w : option bool) (ro : bool) (n : Z) :
  0 <= p -> 0 <= n <= OFFSET_MAX -> Z.of_nat (length c) < 2 ^ 32 ->
  let block := take (Z.to_nat n) (drop (Z.to_nat p) c) in
  IOStream.readBlock n (IOStream.mk (RubyIO.mk c p false w) ro)
  = (Ret block, IOStream.mk (RubyIO.mk c (p + Z.of_nat (length block)) false w) ro)
  /\ Z.of_nat (length block) <= n
  /\ (Z.of_nat (length c) <= p -> block = []).
Proof.
  intros Hp Hn Hc block. split; [by apply readBlock_run |]. split.
  - subst block. rewrite length_take. lia.
  - intros Hend. subst block. rewrite drop_ge by lia. apply take_nil.
Qed.

Lemma readBlock_reads_witness :
  IOStream.readBlock 4 (IOStream.mk (RubyIO.mk Fixtures.ten 8 false None) false)
  = (Ret [Byte.x08; Byte.x09], IOStream.mk (RubyIO.mk Fixtures.ten 10 false None) false).
Proof.
  refine (proj1 (readBlock_reads Fixtures.ten 8 None false 4 _ _ _)).
  - lia.
  - unfold OFFSET_MAX. lia.
  - simpl. lia.
Defined.

(** X6. What writeBlock wrote at a cursor inside the resource is what
    readBlock reads there: write, seek back, read gives the data again,
    and the octets before the cursor are untouched. *)
Theorem writeBlock_then_readBlock (c data : list byte) (p : Z) (w : option bool) (ro : bool) :
  0 <= p <= Z.of_nat (length c) ->
  Z.of_nat (length c) + Z.of_nat (length data) < 2 ^ 32 ->
  exists c',
    (IOStream.writeBlock data ;;
     IOStream.seek p IOStream.Beginning ;;
     IOStream.readBlock (Z.of_nat (length data)))
      (IOStream.mk (RubyIO.mk c p false w) ro)
    = (Ret data, IOStream.mk (RubyIO.mk c' (p + Z.of_nat (length data)) false w) ro)
    /\ take (Z.to_nat p) c' = take (Z.to_nat p) c
    /\ drop (Z.to_nat p + length data) c' = drop (Z.to_nat p + length data) c.
Proof.
  intros Hp Hfit.
  set (c' := take (Z.to_nat p) c ++ data ++ drop (Z.to_nat p + length data) c).
  assert (Hlen : (length c' <= length c + length data)%nat).
  { subst c'. rewrite !length_app, length_take, length_drop. lia. }
  assert (Hread : take (Z.to_nat (Z.of_nat (length data))) (drop (Z.to_nat p) c') = data).
  { subst c'. rewrite Nat2Z.id.
    rewrite drop_app_length' by (rewrite length_take; lia).
    apply take_app_length. }
  exists c'. split; [| split].
  - unfold bindM, IOStream.writeBlock.
    rewrite write_run; cbv beta iota.
    rewrite (pad_to_within (Z.to_nat p) c) by lia. fold c'.
    step_with seek_Beginning_run.
    rewrite readBlock_run by (unfold OFFSET_MAX; lia).
    rewrite Hread. done.
  - subst c'. rewrite take_app_length'; [done |]. rewrite length_take. lia.
  - subst c'. rewrite app_assoc. rewrite drop_app_length'; [done |].
    rewrite length_app, length_take. lia.
Qed.

Lemma writeBlock_then_readBlock_witness :
  exists c',
    (IOStream.writeBlock Fixtures.block ;;
     IOStream.seek 2 IOStream.Beginning ;;
     IOStream.readBlock (Z.of_nat (length Fixtures.block)))
      (IOStream.mk (RubyIO.mk Fixtures.ten 2 false None) false)
    = (Ret Fixtures.block,
       IOStream.mk (RubyIO.mk c' (2 + Z.of_nat (length Fixtures.block)) false None) false)
    /\ take (Z.to_nat 2) c' = take (Z.to_nat 2) Fixtures.ten
    /\ drop (Z.to_nat 2 + length Fixtures.block) c'
       = drop (Z.to_nat 2 + length Fixtures.block) Fixtures.ten.
Proof.
  refine (writeBlock_then_readBlock Fixtures.ten Fixtures.block 2 None false _ _).
  - simpl. lia.
  - simpl. lia.
Defined.

(** *** What no operation of the adapter changes *)
Section Keeping.
Import Borrowed.

Lemma keeps_ret {A} (a : A) : keeps_flags (ret a).
Proof. by intros s. Qed.

Lemma keeps_bind {A B} (m : Exn IOStream.t A) (k : A -> Exn IOStream.t B) :
  keeps_flags m -> (forall a, keeps_flags (k a)) -> keeps_flags (bindM m k).
Proof.
  intros Hm Hk s. unfold bindM.
  specialize (Hm s). destruct (m s) as [[a | e] s1]; cbn in Hm.
  - by rewrite (Hk a s1).
  - done.
Qed.

Lemma keeps_io_call {A} (m : Exn RubyIO.t A) :
  resource_keeps m -> keeps_flags (IOStream.io_call m).
Proof.
  intros Hm s. unfold IOStream.io_call, flags.
  destruct (Hm (IOStream.io s)) as [Hc Hw].
  destruct (m (IOStream.io s)) as [r io']. cbn in *. by rewrite Hc, Hw.
Qed.

Lemma resource_keeps_guard {A} (body : Exn RubyIO.t A) :
  (forall io, RubyIO.closed (snd (body io)) = RubyIO.closed io
              /\ RubyIO.writable (snd (body io)) = RubyIO.writable io) ->
  resource_keeps (RubyIO.guard body).
Proof.
  intros Hbody io. unfold RubyIO.guard.
  destruct (RubyIO.closed io) eqn:Hclosed; [by cbn |].
  rewrite <- Hclosed. apply Hbody.
Qed.

Lemma resource_keeps_seek off whence : resource_keeps (RubyIO.seek off whence).
Proof.
  apply resource_keeps_guard. intros io. cbv beta zeta.
  match goal with |- context [if ?b then (Raise _, _) else _] => by destruct b end.
Qed.

Lemma resource_keeps_read_all : resource_keeps RubyIO.read_all.
Proof. by apply resource_keeps_guard. Qed.

Lemma resource_keeps_read n : resource_keeps (RubyIO.read n).
Proof.
  apply resource_keeps_guard. intros io.
  destruct (n <? 0); [done |].
  by destruct (take (Z.to_nat n) (drop (Z.to_nat (RubyIO.pos io)) (RubyIO.content io))).
Qed.

Lemma resource_keeps_write b : resource_keeps (RubyIO.write b).
Proof. by apply resource_keeps_guard. Qed.

Lemma resource_keeps_tell : resource_keeps RubyIO.tell.
Proof. by apply resource_keeps_guard. Qed.

Lemma resource_keeps_truncate n : resource_keeps (RubyIO.truncate n).
Proof. apply resource_keeps_guard. intros io. by destruct (n <? 0). Qed.

Lemma keeps_seek off pos : keeps_flags (IOStream.seek off pos).
Proof. apply keeps_io_call, resource_keeps_seek. Qed.

(** X7. No operation of the adapter changes what readOnly() answers,
    closes the borrowed resource or reopens it, or changes what the
    resource answers to writable?: seek, tell, truncate, readBlock,
    writeBlock, length, insert, removeBlock, isOpen and clear all keep
    the three, whether they return or raise. *)
Theorem adapter_keeps_flags :
  (forall off pos, keeps_flags (IOStream.seek off pos))
  /\ keeps_flags IOStream.tell
  /\ (forall n, keeps_flags (IOStream.truncate n))
  /\ (forall n, keeps_flags (IOStream.readBlock n))
  /\ (forall data, keeps_flags (IOStream.writeBlock data))
  /\ keeps_flags IOStream.length
  /\ (forall data start replace, keeps_flags (IOStream.insert data start replace))
  /\ (forall start len, keeps_flags (IOStream.removeBlock start len))
  /\ keeps_flags IOStream.isOpen
  /\ keeps_flags IOStream.clear.
Proof.
  assert (Htell : keeps_flags IOStream.tell)
    by apply keeps_io_call, resource_keeps_tell.
  assert (Htrunc : forall n, keeps_flags (IOStream.truncate n))
    by (intros; apply keeps_io_call, resource_keeps_truncate).
  assert (Hwrite : forall b, keeps_flags (IOStream.io_call (RubyIO.write b)))
    by (intros; apply keeps_io_call, resource_keeps_write).
  assert (Hreadall : keeps_flags (IOStream.io_call RubyIO.read_all))
    by apply keeps_io_call, resource_keeps_read_all.
  split; [intros; apply keeps_seek |].
  split; [done |]. split; [done |].
  split.
  { intros n. unfold IOStream.readBlock. apply keeps_bind.
    - apply keeps_io_call, resource_keeps_read.
    - intros [str |]; apply keeps_ret. }
  split; [intros; apply Hwrite |].
  split.
  { unfold IOStream.length.
    apply keeps_bind; [done | intros current].
    apply keeps_bind; [apply keeps_seek | intros _].
    apply keeps_bind; [done | intros file_length].
    apply keeps_bind; [apply keeps_seek | intros _].
    apply keeps_ret. }
  split.
  { intros data start replace. unfold IOStream.insert.
    apply keeps_bind; [apply keeps_seek | intros _].
    apply keeps_bind.
    { destruct (0 <? replace); [| apply keeps_ret].
      apply keeps_bind; [apply keeps_seek | by intros _]. }
    intros remainder.
    apply keeps_bind; [apply keeps_seek | intros _].
    apply keeps_bind; [apply Hwrite | intros _].
    apply keeps_bind; [| intros _; apply Htrunc].
    destruct (negb _); [apply Hwrite | apply keeps_ret]. }
  split.
  { intros start len. unfold IOStream.removeBlock.
    apply keeps_bind; [apply keeps_seek | intros _].
    apply keeps_bind; [done | intros remainder].
    apply keeps_bind; [apply keeps_seek | intros _].
    apply keeps_bind; [| intros _; apply Htrunc].
    destruct (negb _); [apply Hwrite | apply keeps_ret]. }
  split.
  { unfold IOStream.isOpen. apply keeps_bind; [| intros; apply keeps_ret].
    apply keeps_io_call. by intros io. }
  apply keeps_ret.
Qed.

End Keeping.

(** X8. On a resource that has been closed, isOpen() answers false
    without raising, and seek, tell, truncate, readBlock, writeBlock,
    length, insert and removeBlock pass the resource's IOError on and
    leave resource and adapter as they were. *)
Theorem closed_resource_raises (s : IOStream.t) :
  RubyIO.closed (IOStream.io s) = true ->
  IOStream.isOpen s = (Ret false, s)
  /\ (forall off pos, IOStream.seek off pos s = (Raise IOError, s))
  /\ IOStream.tell s = (Raise IOError, s)
  /\ (forall n, IOStream.truncate n s = (Raise IOError, s))
  /\ (forall n, IOStream.readBlock n s = (Raise IOError, s))
  /\ (forall data, IOStream.writeBlock data s = (Raise IOError, s))
  /\ IOStream.length s = (Raise IOError, s)
  /\ (forall data start replace, IOStream.insert data start replace s = (Raise IOError, s))
  /\ (forall start len, IOStream.removeBlock start len s = (Raise IOError, s)).
Proof.
  destruct s as [[c p cl w] ro]. cbn. intros ->.
  repeat split; intros;
    unfold IOStream.insert, IOStream.removeBlock, IOStream.length, IOStream.readBlock,
      IOStream.writeBlock, IOStream.truncate, IOStream.tell, IOStream.seek, bindM;
    done.
Qed.

Lemma closed_resource_raises_witness :
  IOStream.removeBlock 0 1 (IOStream.mk (RubyIO.mk Fixtures.ten 0 true None) false)
  = (Raise IOError, IOStream.mk (RubyIO.mk Fixtures.ten 0 true None) false).
Proof.
  exact (proj2 (proj2 (proj2 (proj2 (proj2 (proj2 (proj2 (proj2
           (closed_resource_raises
              (IOStream.mk (RubyIO.mk Fixtures.ten 0 true None) false) eq_refl))))))))
           0 1).
Defined.

(** ** The read style *)

(** X9. The read style is Average for nil and false; among symbols
    exactly fast, accurate and average are known and give their style,
    every other symbol is an argument error; any other true value is a
    type error. *)
Theorem read_style_accepts :
  (forall o, Ruby.test o = false ->
             Style.rubyObjectToTagLibAudioPropertiesReadStyle o = Ret Style.Average)
  /\ (forall name style,
        Style.rubyObjectToTagLibAudioPropertiesReadStyle (Ruby.Symbol name) = Ret style
        <-> (name, style) ∈ Style.styles)
  /\ (forall name,
        name ∉ map fst Style.styles ->
        Style.rubyObjectToTagLibAudioPropertiesReadStyle (Ruby.Symbol name)
        = Raise ArgumentError)
  /\ (forall o, Ruby.test o = true -> (forall name, o <> Ruby.Symbol name) ->
                Style.rubyObjectToTagLibAudioPropertiesReadStyle o = Raise TypeError).
Proof.
  unfold Style.rubyObjectToTagLibAudioPropertiesReadStyle, Style.styles.
  split; [| split; [| split]].
  - by intros o ->.
  - intros name style. cbn. rewrite !elem_of_cons, elem_of_nil.
    destruct (String.eqb_spec name "fast") as [-> | Hfast].
    { split; [intros [= <-]; by left | ].
      intros [[= <-] | [[= ?] | [[= ?] | []]]]; done. }
    destruct (String.eqb_spec name "accurate") as [-> | Hacc].
    { split; [intros [= <-]; right; by left | ].
      intros [[= ?] | [[= <-] | [[= ?] | []]]]; done. }
    destruct (String.eqb_spec name "average") as [-> | Havg].
    { split; [intros [= <-]; right; right; by left | ].
      intros [[= ?] | [[= ?] | [[= <-] | []]]]; done. }
    split; [done |].
    intros [[= ? ?] | [[= ? ?] | [[= ? ?] | []]]]; done.
  - intros name. cbn. rewrite !elem_of_cons, elem_of_nil. intros Hname.
    destruct (String.eqb_spec name "fast"); [tauto |].
    destruct (String.eqb_spec name "accurate"); [tauto |].
    destruct (String.eqb_spec name "average"); [tauto | done].
  - intros o Htest Hsym. rewrite Htest. cbn.
    destruct o; try done. by destruct (Hsym name).
Qed.

Lemma read_style_accepts_witness :
  Style.rubyObjectToTagLibAudioPropertiesReadStyle (Ruby.Symbol "accurate")
  = Ret Style.Accurate.
Proof.
  apply (proj2 (proj1 (proj2 read_style_accepts) "accurate" Style.Accurate)).
  unfold Style.styles. rewrite !elem_of_cons. right. by left.
Defined.

(** ** Marshalling there and back *)
Section ThereAndBack.
Import Ruby TagLib Convert.
Context `{Runtime}.

Lemma ByteVector_of_data_all (v : list byte) :
  Fits.vector v -> ByteVector_of_data v (Z.of_nat (List.length v)) = v.
Proof.
  unfold Fits.vector, ByteVector_of_data. intros Hv.
  rewrite to_uint_fits by lia. rewrite Nat2Z.id. by apply take_ge.
Qed.

Lemma binary_strings_back (l : ByteVectorList) :
  Forall Fits.vector l ->
  map (fun s => ByteVector_of_data (c_str s) (length s)) (map tagLibByteVectorToRuby l) = l.
Proof.
  induction 1 as [| v l Hv _ IH]; [done |].
  cbn [map]. rewrite IH. f_equal.
  unfold c_str, length, tagLibByteVectorToRuby, rb_str_new. cbn [bytes].
  by apply ByteVector_of_data_all.
Qed.

(** X10. Typed to dynamic and back.  The empty variant, booleans and
    64-bit signed integers come back as they were; the other integer
    widths come back as the 64-bit signed variant when the value fits it,
    and an unsigned 64-bit value from 2^63 on makes the way back raise a
    range error; a byte vector and a non-empty list of byte vectors come
    back as they were. *)
Theorem variant_round_trip :
  rubyObjectToTagLibVariant (taglibVariantToRuby Void) = Ret Void
  /\ (forall b, rubyObjectToTagLibVariant (taglibVariantToRuby (VBool b)) = Ret (VBool b))
  /\ (forall z, Fits.long_long z ->
        rubyObjectToTagLibVariant (taglibVariantToRuby (VLongLong z)) = Ret (VLongLong z)
        /\ rubyObjectToTagLibVariant (taglibVariantToRuby (VInt z)) = Ret (VLongLong z)
        /\ rubyObjectToTagLibVariant (taglibVariantToRuby (VUInt z)) = Ret (VLongLong z)
        /\ rubyObjectToTagLibVariant (taglibVariantToRuby (VULongLong z)) = Ret (VLongLong z))
  /\ (forall z, 2 ^ 63 <= z ->
        rubyObjectToTagLibVariant (taglibVariantToRuby (VULongLong z)) = Raise RangeError)
  /\ (forall v, Fits.vector v ->
        rubyObjectToTagLibVariant (taglibVariantToRuby (VByteVector v)) = Ret (VByteVector v))
  /\ (forall v l, Forall Fits.vector (v :: l) ->
        rubyObjectToTagLibVariant (taglibVariantToRuby (VByteVectorList (v :: l)))
        = Ret (VByteVectorList (v :: l))).
Proof.
  split; [done |]. split; [by intros [] |].
  split.
  { intros z [Hlo Hhi]. cbn.
    destruct (Z.leb_spec (- 2 ^ 63) z); [| lia].
    destruct (Z.ltb_spec z (2 ^ 63)); [| lia]. done. }
  split.
  { intros z Hz. cbn.
    destruct (Z.ltb_spec z (2 ^ 63)); [lia |]. by rewrite andb_false_r. }
  split.
  { intros v Hv. cbn. unfold rubyStringToTaglibVariant, c_str, length. cbn.
    by rewrite ByteVector_of_data_all. }
  intros v l Hall.
  change (taglibVariantToRuby (VByteVectorList (v :: l)))
    with (Array (map (fun v => Str (tagLibByteVectorToRuby v)) (v :: l)) false).
  rewrite <- (map_map tagLibByteVectorToRuby Str).
  cbn [rubyObjectToTagLibVariant].
  unfold rubyArrayToTagLibVariant_body. cbn [map].
  change (isBinaryEncoding (tagLibByteVectorToRuby v)) with true. cbv iota.
  change (Str (tagLibByteVectorToRuby v) :: map Str (map tagLibByteVectorToRuby l))
    with (map Str (map tagLibByteVectorToRuby (v :: l))).
  unfold rubyArrayToTagLibByteVectorList. rewrite mapO_strings. cbn [bindO].
  by rewrite binary_strings_back.
Qed.

(** X11. An empty list does not survive the round trip: the empty list
    of strings, of byte vectors and of variants each become the empty
    array and come back as the empty variant; the empty map comes back as
    the empty map. *)
Theorem empty_lists_collapse :
  rubyObjectToTagLibVariant (taglibVariantToRuby (VStringList [])) = Ret Void
  /\ rubyObjectToTagLibVariant (taglibVariantToRuby (VByteVectorList [])) = Ret Void
  /\ rubyObjectToTagLibVariant (taglibVariantToRuby (VVariantList [])) = Ret Void
  /\ rubyObjectToTagLibVariant (taglibVariantToRuby (VVariantMap [])) = Ret (VVariantMap [])
  /\ (forall frozen, rubyObjectToTagLibVariant (Array [] frozen) = Ret Void).
Proof. by repeat split. Qed.

(** X12. A list of variants that starts with a string does not come back
    as a list of variants: when all its elements are strings it comes back
    as a list of strings, and when its second element is anything that is
    not marshalled to a Ruby string the way back raises a type error. *)
Theorem variant_list_headed_by_string :
  (forall s l,
      rubyObjectToTagLibVariant (taglibVariantToRuby (VVariantList (map VString (s :: l))))
      = Ret (VStringList
               (map (fun s => String_of_cstr (String_to8Bit s) UTF8) (s :: l))))
  /\ (forall s v rest,
        (forall r, taglibVariantToRuby v <> Str r) ->
        rubyObjectToTagLibVariant
          (taglibVariantToRuby (VVariantList (VString s :: v :: rest)))
        = Raise TypeError).
Proof.
  split.
  - intros s l.
    change (taglibVariantToRuby (VVariantList (map VString (s :: l))))
      with (Array (map taglibVariantToRuby (map VString (s :: l))) false).
    rewrite map_map.
    change (fun x => taglibVariantToRuby (VString x))
      with (fun x => Str (tagLibStringToRubyUTF8String x)).
    rewrite <- (map_map tagLibStringToRubyUTF8String Str).
    cbn [rubyObjectToTagLibVariant].
    unfold rubyArrayToTagLibVariant_body. cbn [map].
    change (isBinaryEncoding (tagLibStringToRubyUTF8String s)) with false. cbv iota.
    change (Str (tagLibStringToRubyUTF8String s)
              :: map Str (map tagLibStringToRubyUTF8String l))
      with (map Str (map tagLibStringToRubyUTF8String (s :: l))).
    unfold rubyArrayToTagLibStringList. rewrite mapO_strings. cbn [bindO].
    by rewrite map_map.
  - intros s v rest Hv.
    change (taglibVariantToRuby (VVariantList (VString s :: v :: rest)))
      with (Array (map Str [tagLibStringToRubyUTF8String s]
                     ++ taglibVariantToRuby v :: map taglibVariantToRuby rest) false).
    cbn [rubyObjectToTagLibVariant].
    unfold rubyArrayToTagLibVariant_body. cbn [map app].
    change (isBinaryEncoding (tagLibStringToRubyUTF8String s)) with false. cbv iota.
    unfold rubyArrayToTagLibStringList.
    change (Str (tagLibStringToRubyUTF8String s)
              :: taglibVariantToRuby v :: map taglibVariantToRuby rest)
      with (map Str [tagLibStringToRubyUTF8String s]
              ++ taglibVariantToRuby v :: map taglibVariantToRuby rest).
    by rewrite mapO_strings_rejects.
Qed.

End ThereAndBack.

Lemma variant_round_trip_witness :
  Convert.rubyObjectToTagLibVariant
    (@Convert.taglibVariantToRuby (Octets.runtime 2)
       (TagLib.VByteVectorList [Fixtures.block; []]))
  = Ret (TagLib.VByteVectorList [Fixtures.block; []]).
Proof.
  refine (proj2 (proj2 (proj2 (proj2 (proj2 (@variant_round_trip (Octets.runtime 2))))))
            Fixtures.block [[]] _).
  repeat constructor; unfold Fits.vector; simpl; lia.
Defined.

Lemma variant_list_headed_by_string_witness :
  Convert.rubyObjectToTagLibVariant
    (@Convert.taglibVariantToRuby (Octets.runtime 2)
       (TagLib.VVariantList [TagLib.VString Fixtures.value_v; TagLib.VLongLong 7]))
  = Raise TypeError.
Proof.
  refine (proj2 (@variant_list_headed_by_string (Octets.runtime 2))
            Fixtures.value_v (TagLib.VLongLong 7) [] _).
  intros r. discriminate.
Defined.

(** ** Property values *)
Section PropertyValues.
Import Ruby TagLib Convert.

(** X13. A property value is a string or an array of strings: a single
    string converts like the one-element array holding it; of each string
    only the octets up to the first NUL are used and its encoding tag is
    ignored, the library string being declared Latin-1; nil, and any
    array holding something that is not a string, raise a type error. *)
Theorem property_values_conversion :
  (forall s frozen,
      rubyObjectToTagLibStringList (Str s)
      = rubyObjectToTagLibStringList (Array [Str s] frozen))
  /\ (forall l frozen,
        rubyObjectToTagLibStringList (Array (map Str l) frozen)
        = Ret (map (fun s => mkStr (until_nul (bytes s)) Latin1) l))
  /\ (forall s s', bytes s = bytes s' ->
        rubyObjectToTagLibStringList (Str s) = rubyObjectToTagLibStringList (Str s'))
  /\ rubyObjectToTagLibStringList Qnil = Raise TypeError
  /\ (forall l x rest frozen,
        (forall s, x <> Str s) ->
        rubyObjectToTagLibStringList (Array (map Str l ++ x :: rest) frozen)
        = Raise TypeError).
Proof.
  split; [done |]. split; [| split; [| split; [done |]]].
  - intros l frozen. cbn. apply mapO_strings.
  - intros s s' Hb. cbn. unfold c_str. by rewrite Hb.
  - intros l x rest frozen Hx. cbn. by apply mapO_strings_rejects.
Qed.

End PropertyValues.

Lemma property_values_conversion_witness :
  Convert.rubyObjectToTagLibStringList (Ruby.Str Fixtures.utf8_b)
  = Convert.rubyObjectToTagLibStringList
      (Ruby.Str (Ruby.mkString [Byte.x62] Ruby.UTF_16LE true)).
Proof.
  exact (proj1 (proj2 (proj2 property_values_conversion))
           Fixtures.utf8_b (Ruby.mkString [Byte.x62] Ruby.UTF_16LE true) eq_refl).
Defined.

(** ** mergeProperties *)
Section MergingProperties.
Import Ruby TagLib Convert FileRef Touched.
Context `{Runtime}.

Lemma raiseInvalid_state (s : FileRef.t) : snd (raiseInvalid s) = s.
Proof.
  unfold raiseInvalid. destruct (fileRef s); [| done]. by destruct (FileRef.isValid s).
Qed.

(** What a completed call did. *)
Lemma mergeProperties_Ret (entries : list (Object * Object)) (replace_all : bool)
    (s s' : FileRef.t) :
  mergeProperties entries replace_all s = (Ret tt, s') ->
  exists f merged,
    fileRef s = Some f /\ TagLib.isValid f = true
    /\ mergeProperties_loop entries
         (if negb replace_all then TagLib.properties f else ∅) = Ret merged
    /\ s' = FileRef.mk (Some (with_properties (PropertyMap_removeEmpty merged) f)) (stream s).
Proof.
  unfold mergeProperties, bindM.
  destruct (raiseInvalid s) as [[f | e] s1] eqn:Hvalid; [| done].
  apply raiseInvalid_Ret in Hvalid as (-> & Hf & Hv).
  unfold liftO.
  destruct (mergeProperties_loop entries _) as [merged | e] eqn:Hloop; [| done].
  unfold set_file. intros [= <-]. by exists f, merged.
Qed.

Lemma mergeProperties_loop_app (pre post : list (Object * Object)) (m : PropertyMap) :
  mergeProperties_loop (pre ++ post) m
  = try m1 := mergeProperties_loop pre m in mergeProperties_loop post m1.
Proof.
  revert m. induction pre as [| [k v] pre IH]; intros m; [done |].
  cbn. destruct (as_String k); [| done]. cbn.
  destruct (rubyObjectToTagLibStringList v); [| done]. cbn. apply IH.
Qed.

(** Keys the updates do not name are as they were. *)
Lemma mergeProperties_loop_frame (entries : list (Object * Object)) (m m' : PropertyMap)
    (key : TagLib.String) :
  mergeProperties_loop entries m = Ret m' ->
  key ∉ named_keys entries ->
  m' !! key = m !! key.
Proof.
  revert m. induction entries as [| [k v] entries IH]; intros m; cbn.
  - by intros [= ->].
  - destruct k; try done. cbn.
    destruct (rubyObjectToTagLibStringList v) as [values |]; [| done]. cbn.
    intros Hloop Hkey. apply not_elem_of_cons in Hkey as [Hne Hkey].
    rewrite (IH _ Hloop Hkey). unfold PropertyMap_replace, update_key in *.
    rewrite lookup_insert_ne by done. by rewrite lookup_delete_ne.
Qed.

Lemma removeEmpty_same (m m' : PropertyMap) (key : TagLib.String) :
  m' !! key = m !! key ->
  PropertyMap_removeEmpty m' !! key = PropertyMap_removeEmpty m !! key.
Proof.
  intros Hsame. apply option_eq. intros values.
  by rewrite !removeEmpty_lookup, Hsame.
Qed.

(** X14. mergeProperties is all or nothing: the updates are merged into a
    local map and stored by one call at the end, so when the call raises
    (closed handle, a key that is not a string, a value that is neither a
    string nor an array of strings) the handle is exactly as before. *)
Theorem mergeProperties_raise_changes_nothing (entries : list (Object * Object))
    (replace_all : bool) (s s' : FileRef.t) (e : RubyError) :
  mergeProperties entries replace_all s = (Raise e, s') -> s' = s.
Proof.
  unfold mergeProperties, bindM.
  pose proof (raiseInvalid_state s) as Hstate.
  destruct (raiseInvalid s) as [[f | e0] s1]; cbn in Hstate; subst s1.
  - unfold liftO. destruct (mergeProperties_loop entries _); [done |].
    by intros [= _ <-].
  - by intros [= _ <-].
Qed.

(** X15. With no updates and replace_all off, mergeProperties stores the
    current properties less their empty sequences; when the current map
    has no empty sequence the handle is left exactly as it was. *)
Theorem mergeProperties_no_updates (s : FileRef.t) (f : File) :
  fileRef s = Some f -> TagLib.isValid f = true ->
  mergeProperties [] false s
  = (Ret tt,
     FileRef.mk (Some (with_properties (PropertyMap_removeEmpty (TagLib.properties f)) f))
                (stream s))
  /\ ((forall key, TagLib.properties f !! key <> Some []) ->
      mergeProperties [] false s = (Ret tt, s)).
Proof.
  intros Hf Hv.
  assert (Hrun : mergeProperties [] false s
                 = (Ret tt,
                    FileRef.mk
                      (Some (with_properties (PropertyMap_removeEmpty (TagLib.properties f)) f))
                      (stream s))).
  { unfold mergeProperties, bindM. by rewrite (raiseInvalid_valid s f Hf Hv). }
  split; [exact Hrun |].
  intros Hfull. rewrite Hrun. f_equal.
  unfold PropertyMap_removeEmpty. rewrite map_filter_id.
  - destruct s as [r st], f. cbn in *. by subst r.
  - intros key values Hk. cbn. intros ->. by apply (Hfull key).
Qed.

(** X16. With replace_all on, a completed mergeProperties stores only
    keys that the updates name: nothing of the current properties is
    kept. *)
Theorem mergeProperties_replace_all_keys (entries : list (Object * Object))
    (s s' : FileRef.t) (f' : File) (key : TagLib.String) (values : StringList) :
  mergeProperties entries true s = (Ret tt, s') ->
  fileRef s' = Some f' ->
  TagLib.properties f' !! key = Some values ->
  key ∈ named_keys entries.
Proof.
  intros (f & merged & _ & _ & Hloop & ->)%mergeProperties_Ret [= <-]. cbn.
  intros [Hm _]%removeEmpty_lookup.
  destruct (decide (key ∈ named_keys entries)) as [| Hnot]; [done |].
  by rewrite (mergeProperties_loop_frame _ _ _ key Hloop Hnot) in Hm.
Qed.

(** X17. The last update of a key decides.  After a completed
    mergeProperties whose last entry is (k, v), the stored map holds under
    the key of k the strings of v when there are any, and no entry for
    that key when v is the empty array. *)
Theorem mergeProperties_last_update (pre : list (Object * Object)) (k : RString)
    (v : Object) (values : StringList) (replace_all : bool) (s s' : FileRef.t) (f' : File) :
  mergeProperties (pre ++ [(Str k, v)]) replace_all s = (Ret tt, s') ->
  fileRef s' = Some f' ->
  rubyObjectToTagLibStringList v = Ret values ->
  TagLib.properties f' !! update_key k
  = match values with [] => None | _ => Some values end.
Proof.
  intros (f & merged & _ & _ & Hloop & ->)%mergeProperties_Ret [= <-] Hv. cbn.
  rewrite mergeProperties_loop_app in Hloop.
  destruct (mergeProperties_loop pre _) as [m1 |]; [| done].
  cbn in Hloop. rewrite Hv in Hloop. cbn in Hloop. injection Hloop as <-.
  apply option_eq. intros vs. rewrite removeEmpty_lookup.
  unfold PropertyMap_replace, update_key. rewrite lookup_insert_eq.
  destruct values; split; try done.
  - by intros [[= <-] ?].
  - by intros [[= <-] ?].
  - by intros [= <-].
Qed.

(** X18. With replace_all off, a completed mergeProperties leaves a key
    as it was, up to the removal of empty sequences, when no update names
    it: when its text, read through its UTF-8 image, is the text of no
    update's key as the library upper-cases it.  Two keys that differ in
    octets or declared type only, and not in text, are one key to the
    library and are not told apart here. *)
Theorem mergeProperties_keeps_other_keys (entries : list (Object * Object))
    (s s' : FileRef.t) (f f' : File) (key : TagLib.String) :
  mergeProperties entries false s = (Ret tt, s') ->
  fileRef s = Some f -> fileRef s' = Some f' ->
  (forall key', key' ∈ named_keys entries -> String_to8Bit key' <> String_to8Bit key) ->
  TagLib.properties f' !! key = PropertyMap_removeEmpty (TagLib.properties f) !! key.
Proof.
  intros (f0 & merged & Hf0 & _ & Hloop & ->)%mergeProperties_Ret Hf [= <-] Hkey.
  rewrite Hf0 in Hf. injection Hf as ->. cbn.
  apply removeEmpty_same. apply (mergeProperties_loop_frame entries); [done |].
  intros Hin. by apply (Hkey key Hin).
Qed.

End MergingProperties.

Lemma mergeProperties_raise_changes_nothing_witness :
  snd (@FileRef.mergeProperties (Octets.runtime 2) Samples.symbol_update false
         Fixtures.handle)
  = Fixtures.handle.
Proof.
  refine (@mergeProperties_raise_changes_nothing (Octets.runtime 2)
            Samples.symbol_update false Fixtures.handle _ TypeError _).
  reflexivity.
Defined.

Lemma mergeProperties_no_updates_witness :
  @FileRef.mergeProperties (Octets.runtime 2) [] false Fixtures.handle
  = (Ret tt, Fixtures.handle).
Proof.
  refine (proj2 (@mergeProperties_no_updates (Octets.runtime 2) Fixtures.handle
                   Fixtures.file eq_refl eq_refl) _).
  intros key.
  change (TagLib.properties Fixtures.file)
    with ({[ Fixtures.key_K := [Fixtures.value_v] ]} : gmap TagLib.String (list TagLib.String)).
  destruct (decide (key = Fixtures.key_K)) as [-> | Hne].
  - rewrite lookup_singleton_eq. discriminate.
  - rewrite lookup_singleton_ne by done. discriminate.
Defined.

Lemma mergeProperties_replace_all_keys_witness :
  Samples.key_B ∈ @Touched.named_keys (Octets.runtime 2) Fixtures.updates.
Proof.
  refine (@mergeProperties_replace_all_keys (Octets.runtime 2) Fixtures.updates
            Fixtures.handle Samples.replaced (Samples.file_of Samples.replaced)
            Samples.key_B [Samples.value_a] _ _ _).
  - reflexivity.
  - reflexivity.
  - vm_compute. reflexivity.
Defined.

Lemma mergeProperties_last_update_witness :
  TagLib.properties (Samples.file_of Samples.merged)
    !! @Touched.update_key (Octets.runtime 2) Fixtures.utf8_b
  = Some [Samples.value_a].
Proof.
  refine (@mergeProperties_last_update (Octets.runtime 2)
            [(Ruby.Str (Ruby.mkString [Byte.x6b] Ruby.UTF_8 false), Ruby.Array [] false)]
            Fixtures.utf8_b (Ruby.Array [Ruby.Str Fixtures.binary_a] false)
            [Samples.value_a] false Fixtures.handle Samples.merged
            (Samples.file_of Samples.merged) _ _ _).
  - reflexivity.
  - reflexivity.
  - reflexivity.
Defined.

Lemma mergeProperties_keeps_other_keys_witness :
  TagLib.properties (Samples.file_of Samples.merged_b) !! Fixtures.key_K
  = TagLib.PropertyMap_removeEmpty (TagLib.properties Fixtures.file) !! Fixtures.key_K.
Proof.
  refine (@mergeProperties_keeps_other_keys (Octets.runtime 2) Samples.update_b
            Fixtures.handle Samples.merged_b Fixtures.file
            (Samples.file_of Samples.merged_b) Fixtures.key_K _ _ _ _).
  - reflexivity.
  - reflexivity.
  - reflexivity.
  - unfold Samples.update_b. cbn. intros key'. rewrite elem_of_cons, elem_of_nil.
    intros [-> | []]. discriminate.
Defined.

(** ** Looking a property up in the returned map *)
Section ReturnedLookup.
Import Ruby TagLib Convert FileRef Touched.
Context `{Runtime}.

Lemma same_key_spec (k k' : RString) :
  same_key k (Str k') = true <-> bytes k = bytes k' /\ encoding k = encoding k'.
Proof. cbn. apply bool_decide_eq_true. Qed.

Lemma same_key_trans (k k' : RString) (o : Object) :
  bytes k = bytes k' -> encoding k = encoding k' -> same_key k o = same_key k' o.
Proof. intros Hb He. destruct o; try done. cbn. by rewrite Hb, He. Qed.

Lemma lookup_store_entry (k k' : RString) (v : Object) (entries : list (Object * Object)) :
  lookup_entry k (store_entry k' v entries)
  = if bool_decide (bytes k = bytes k' /\ encoding k = encoding k')
    then Some v else lookup_entry k entries.
Proof.
  unfold lookup_entry.
  induction entries as [| [k0 v0] entries IH]; cbn.
  - by case_bool_decide.
  - destruct (same_key k' k0) eqn:Hk'; cbn.
    + case_bool_decide as Hkk.
      * destruct Hkk as [Hb He]. by rewrite (same_key_trans k k' k0 Hb He), Hk'.
      * destruct (same_key k k0) eqn:Hk; [| done]. exfalso. apply Hkk.
        destruct k0; try done.
        apply same_key_spec in Hk as [? ?]. apply same_key_spec in Hk' as [? ?].
        split; congruence.
    + case_bool_decide as Hkk.
      * destruct Hkk as [Hb He]. rewrite (same_key_trans k k' k0 Hb He), Hk'. cbn.
        exact IH.
      * destruct (same_key k k0); [done |]. exact IH.
Qed.

Lemma hash_fold_present (l : list (TagLib.String * StringList))
    (acc : list (Object * Object)) (key : TagLib.String) (values : StringList) (fz : bool) :
  (key, values) ∈ l ->
  (forall p, p ∈ l -> String_to8Bit (fst p) = String_to8Bit key -> p = (key, values)) ->
  lookup_entry (mkString (String_to8Bit key) UTF_8 fz) (fold_left hash_step l acc)
  = Some (Array (map (fun item => Str (tagLibStringToRubyUTF8String item)) values) true).
Proof.
  induction l as [| p l IH] using rev_ind; [by intros ?%elem_of_nil |].
  intros Hin Huniq. rewrite fold_left_app. cbn [fold_left]. unfold hash_step at 1.
  rewrite lookup_store_entry. cbn [bytes encoding tagLibStringToRubyUTF8String rb_str_new].
  case_bool_decide as Himg.
  - destruct Himg as [Himg _].
    assert (Hp : p = (key, values)).
    { apply Huniq; [| done]. apply elem_of_app. right. by apply list_elem_of_singleton. }
    by rewrite Hp.
  - apply IH.
    + apply elem_of_app in Hin as [| Hlast%list_elem_of_singleton]; [done |].
      subst p. by destruct Himg.
    + intros q Hq. apply Huniq, elem_of_app. by left.
Qed.

Lemma hash_fold_absent (l : list (TagLib.String * StringList)) (b : list byte) (fz : bool) :
  (forall p, p ∈ l -> String_to8Bit (fst p) <> b) ->
  lookup_entry (mkString b UTF_8 fz) (fold_left hash_step l []) = None.
Proof.
  induction l as [| p l IH] using rev_ind; [done |].
  intros Hnone. rewrite fold_left_app. cbn [fold_left]. unfold hash_step at 1.
  rewrite lookup_store_entry. cbn [bytes encoding tagLibStringToRubyUTF8String rb_str_new].
  case_bool_decide as Himg.
  - destruct Himg as [Himg _]. exfalso. apply (Hnone p); [| done].
    apply elem_of_app. right. by apply list_elem_of_singleton.
  - apply IH. intros q Hq. apply Hnone, elem_of_app. by left.
Qed.

(** X19. On a valid handle the properties query returns a map in which
    each property is found under the UTF-8 image of its key, as the
    frozen array of the UTF-8 images of its values in their order,
    provided no other key of the file has the same UTF-8 image; a string
    that is the image of no key finds nothing. *)
Theorem properties_lookup (s : FileRef.t) (f : File) :
  fileRef s = Some f -> TagLib.isValid f = true ->
  exists entries,
    FileRef.properties s = (Ret (Hash entries true), s)
    /\ (forall key values fz,
          TagLib.properties f !! key = Some values ->
          (forall key', is_Some (TagLib.properties f !! key') ->
                        String_to8Bit key' = String_to8Bit key -> key' = key) ->
          lookup_entry (mkString (String_to8Bit key) UTF_8 fz) entries
          = Some (Array (map (fun v => Str (mkString (String_to8Bit v) UTF_8 false)) values)
                        true))
    /\ (forall b fz,
          (forall key', is_Some (TagLib.properties f !! key') -> String_to8Bit key' <> b) ->
          lookup_entry (mkString b UTF_8 fz) entries = None).
Proof.
  intros Hf Hv.
  exists (fold_left hash_step (map_to_list (TagLib.properties f)) []).
  split; [| split].
  - unfold FileRef.properties, bindM. by rewrite (raiseInvalid_valid s f Hf Hv).
  - intros key values fz Hkey Hinj.
    apply hash_fold_present.
    + by apply elem_of_map_to_list.
    + intros [key' values'] Hin%elem_of_map_to_list Himg. cbn in Himg.
      assert (key' = key) as -> by (apply Hinj; [by eexists | done]).
      rewrite Hkey in Hin. by injection Hin as <-.
  - intros b fz Hnone. apply hash_fold_absent.
    intros [key' values'] Hin%elem_of_map_to_list. cbn. apply Hnone. by eexists.
Qed.

End ReturnedLookup.

Lemma properties_lookup_witness :
  exists entries,
    @FileRef.properties (Octets.runtime 2) Fixtures.handle
    = (Ret (Ruby.Hash entries true), Fixtures.handle)
    /\ (forall key values fz,
          TagLib.properties Fixtures.file !! key = Some values ->
          (forall key', is_Some (TagLib.properties Fixtures.file !! key') ->
                        @TagLib.String_to8Bit (Octets.runtime 2) key'
                        = @TagLib.String_to8Bit (Octets.runtime 2) key -> key' = key) ->
          Ruby.lookup_entry
            (Ruby.mkString (@TagLib.String_to8Bit (Octets.runtime 2) key) Ruby.UTF_8 fz)
            entries
          = Some (Ruby.Array
                    (map (fun v => Ruby.Str
                                     (Ruby.mkString (@TagLib.String_to8Bit (Octets.runtime 2) v)
                                                    Ruby.UTF_8 false))
                         values)
                    true))
    /\ (forall b fz,
          (forall key', is_Some (TagLib.properties Fixtures.file !! key') ->
                        @TagLib.String_to8Bit (Octets.runtime 2) key' <> b) ->
          Ruby.lookup_entry (Ruby.mkString b Ruby.UTF_8 fz) entries = None).
Proof.
  exact (@properties_lookup (Octets.runtime 2) Fixtures.handle Fixtures.file eq_refl eq_refl).
Defined.

(** ** mergeTagProperties, field by field *)
Section MergingTags.
Import Ruby TagLib Convert FileRef Touched.
Context `{Runtime}.

Ltac by_key key :=
  repeat match goal with
         | |- context [String.eqb key ?k] => destruct (String.eqb_spec key k)
         end.

Lemma mergeTagProperty_frame (name key : string) (value : Object) (g g' : Tag) :
  mergeTagProperty name value g = Ret g' -> key <> name ->
  tag_field key g' = tag_field key g.
Proof.
  unfold mergeTagProperty. intros Hset Hne.
  repeat match type of Hset with
         | context [String.eqb name ?k] => destruct (String.eqb_spec name k)
         end;
    try done;
    match type of Hset with
    | context [rubyStringOrNilToTagLibString value] =>
        destruct (rubyStringOrNilToTagLibString value) as [v |]
    | context [rubyIntegerOrNilToUInt value] =>
        destruct (rubyIntegerOrNilToUInt value) as [v |]
    end;
    try done; cbn in Hset; injection Hset as <-;
    unfold tag_field; by_key key; subst; try done.
Qed.

Lemma mergeTagProperties_loop_frame (entries : list (Object * Object)) (g g' : Tag)
    (r : Outcome unit) (key : string) :
  mergeTagProperties_loop entries g = (r, g') ->
  key ∉ named_fields entries ->
  tag_field key g' = tag_field key g.
Proof.
  revert g. induction entries as [| [k v] entries IH]; intros g; cbn.
  - by intros [= _ <-].
  - destruct k; cbn; try by intros [= _ <-].
    destruct (mergeTagProperty name v g) as [g1 |] eqn:Hset; [| by intros [= _ <-]].
    intros Hloop Hkey. apply not_elem_of_cons in Hkey as [Hne Hkey].
    rewrite (IH _ Hloop Hkey). by apply (mergeTagProperty_frame name key v).
Qed.

(** X20. Whether it completes or raises, mergeTagProperties changes
    nothing of the file but its tag, and in the tag only fields that the
    updates name: every other field is as it was. *)
Theorem mergeTagProperties_touches_named_fields (in_obj : Object)
    (entries : list (Object * Object)) (s s' : FileRef.t) (f : File) (r : Outcome unit) :
  fileRef s = Some f -> TagLib.isValid f = true ->
  to_h in_obj = Ret entries ->
  mergeTagProperties in_obj s = (r, s') ->
  exists g',
    s' = FileRef.mk (Some (with_tag g' f)) (stream s)
    /\ (forall key, key ∉ named_fields entries ->
                    tag_field key g' = tag_field key (TagLib.tag f)).
Proof.
  intros Hf Hv Hh. unfold mergeTagProperties, bindM.
  rewrite (raiseInvalid_valid s f Hf Hv). unfold liftO. rewrite Hh.
  destruct (mergeTagProperties_loop entries (TagLib.tag f)) as [r' g'] eqn:Hloop.
  intros [= _ <-]. exists g'. split; [done |].
  intros key Hkey. by apply (mergeTagProperties_loop_frame entries _ _ r').
Qed.

(** X21. The two numeric fields round trip through the wrapper: an
    integer from 0 to 2^32 - 1 written to year or track on a valid handle
    is what the tag query shows for that field, except that 0 is shown as
    nil. *)
Theorem year_track_round_trip (s : FileRef.t) (f : File) (key : string) (n : Z)
    (frozen : bool) :
  fileRef s = Some f -> TagLib.isValid f = true ->
  key = "year" \/ key = "track" ->
  0 <= n < 2 ^ 32 ->
  exists s' obj,
    mergeTagProperties (Hash [(Symbol key, Integer n)] frozen) s = (Ret tt, s')
    /\ FileRef.tag s' = (Ret obj, s')
    /\ member key obj = Some (if n =? 0 then Qnil else Integer n).
Proof.
  intros Hf Hv Hkey Hn.
  assert (Hconv : rubyIntegerOrNilToUInt (Integer n) = Ret n).
  { cbn. destruct (Z.leb_spec (- 2 ^ 31) n); [| lia].
    destruct (Z.ltb_spec n (2 ^ 32)); [| lia]. cbn. by rewrite to_uint_fits. }
  destruct Hkey as [-> | ->].
  - eexists _, _. split; [| split].
    + unfold mergeTagProperties, bindM. rewrite (raiseInvalid_valid s f Hf Hv).
      cbn -[rubyIntegerOrNilToUInt]. unfold mergeTagProperty.
      cbn -[rubyIntegerOrNilToUInt]. rewrite Hconv. reflexivity.
    + unfold FileRef.tag, bindM. erewrite raiseInvalid_valid; [reflexivity | done | done].
    + cbn. unfold uintToNonZeroRubyInteger. reflexivity.
  - eexists _, _. split; [| split].
    + unfold mergeTagProperties, bindM. rewrite (raiseInvalid_valid s f Hf Hv).
      cbn -[rubyIntegerOrNilToUInt]. unfold mergeTagProperty.
      cbn -[rubyIntegerOrNilToUInt]. rewrite Hconv. reflexivity.
    + unfold FileRef.tag, bindM. erewrite raiseInvalid_valid; [reflexivity | done | done].
    + cbn. unfold uintToNonZeroRubyInteger. reflexivity.
Qed.

(** X22. mergeTagProperties stops at the first entry that raises,
    whatever it raises (a key that is not a symbol, an unknown key, a
    value of the wrong kind or out of range), and leaves the handle as the
    entries before it alone leave it. *)
Theorem mergeTagProperties_raise_keeps_prefix (s s' : FileRef.t) (f' : File)
    (pre post : list (Object * Object)) (frozen : bool) (k v : Object) (e : RubyError) :
  mergeTagProperties (Hash pre frozen) s = (Ret tt, s') ->
  fileRef s' = Some f' ->
  fst (mergeTagProperties_loop [(k, v)] (TagLib.tag f')) = Raise e ->
  mergeTagProperties (Hash (pre ++ (k, v) :: post) frozen) s = (Raise e, s').
Proof.
  unfold mergeTagProperties, bindM.
  destruct (raiseInvalid s) as [[f | e0] s1]; [| done]. cbn -[mergeTagProperties_loop].
  destruct (mergeTagProperties_loop pre (TagLib.tag f)) as [r g] eqn:Hpre.
  intros [= -> <-] [= <-]. cbn -[mergeTagProperties_loop].
  rewrite (mergeTagProperties_loop_app _ _ _ _ Hpre). cbn.
  destruct (as_Symbol k) as [key |]; cbn; [| by intros ->].
  destruct (mergeTagProperty key v g); cbn; [done | by intros ->].
Qed.

End MergingTags.

Lemma mergeTagProperties_touches_named_fields_witness :
  exists g',
    snd (@FileRef.mergeTagProperties (Octets.runtime 2) Runs.tag_updates Fixtures.handle)
    = FileRef.mk (Some (FileRef.with_tag g' Fixtures.file)) (FileRef.stream Fixtures.handle)
    /\ (forall key,
          key ∉ Touched.named_fields
                  [(Ruby.Symbol "title", Ruby.Str Fixtures.utf8_b);
                   (Ruby.Symbol "bogus", Ruby.Qnil)] ->
          Touched.tag_field key g' = Touched.tag_field key (TagLib.tag Fixtures.file)).
Proof.
  refine (@mergeTagProperties_touches_named_fields (Octets.runtime 2) Runs.tag_updates
            _ Fixtures.handle _ Fixtures.file
            (fst (@FileRef.mergeTagProperties (Octets.runtime 2) Runs.tag_updates
                    Fixtures.handle))
            eq_refl eq_refl eq_refl _).
  reflexivity.
Defined.

Lemma year_track_round_trip_witness :
  exists s' obj,
    @FileRef.mergeTagProperties (Octets.runtime 2)
      (Ruby.Hash [(Ruby.Symbol "year", Ruby.Integer 1999)] false) Fixtures.handle
    = (Ret tt, s')
    /\ @FileRef.tag (Octets.runtime 2) s' = (Ret obj, s')
    /\ Ruby.member "year" obj = Some (if 1999 =? 0 then Ruby.Qnil else Ruby.Integer 1999).
Proof.
  refine (@year_track_round_trip (Octets.runtime 2) Fixtures.handle Fixtures.file "year"
            1999 false eq_refl eq_refl _ _).
  - by left.
  - lia.
Defined.

Lemma mergeTagProperties_raise_keeps_prefix_witness :
  @FileRef.mergeTagProperties (Octets.runtime 2)
    (Ruby.Hash (Runs.title_update ++ [(Ruby.Str Fixtures.utf8_b, Ruby.Qnil)]) false)
    Fixtures.handle
  = (Raise TypeError, Runs.titled_b).
Proof.
  refine (@mergeTagProperties_raise_keeps_prefix (Octets.runtime 2) Fixtures.handle
            Runs.titled_b (Samples.file_of Runs.titled_b) Runs.title_update [] false
            (Ruby.Str Fixtures.utf8_b) Ruby.Qnil TypeError _ _ _).
  - reflexivity.
  - reflexivity.
  - reflexivity.
Defined.

(** ** Complex properties *)
Section ComplexProperties.
Import Ruby TagLib Convert FileRef.
Context `{Runtime}.

Lemma cleared_all (keys : StringList) (f : File) :
  (forall kv, In kv (complexProperties f) -> In (fst kv) keys) ->
  complexProperties (fold_left (fun f item => File_setComplexProperties item [] f) keys f)
  = [].
Proof.
  revert f. induction keys as [| k keys IH]; intros f Hkeys.
  - cbn. destruct (complexProperties f) as [| kv rest]; [done |].
    destruct (Hkeys kv). by left.
  - cbn [fold_left]. apply IH. cbn. intros kv [Hin Hne]%filter_In.
    destruct (Hkeys kv Hin) as [Heq | Hrest]; [| done].
    cbn in Hne. by rewrite bool_decide_true in Hne.
Qed.

Lemma cleared_everything (f : File) :
  complexProperties
    (fold_left (fun f item => File_setComplexProperties item [] f)
               (File_complexPropertyKeys f) f)
  = [].
Proof. apply cleared_all. intros kv Hin. by apply in_map. Qed.

(** X23. Compiled for a library older than TagLib 2, a valid handle
    lists no complex property keys, refuses to read a complex property and
    refuses any non-empty complex update with a not-implemented error,
    and accepts the empty update; none of this changes the handle. *)
Theorem complex_properties_unavailable (s : FileRef.t) (f : File) :
  fileRef s = Some f -> TagLib.isValid f = true ->
  TAGLIB_MAJOR_VERSION < 2 ->
  complexPropertyKeys s = (Ret (Array [] false), s)
  /\ (forall key, complexProperty key s = (Raise NotImplementedError, s))
  /\ (forall replace_all, mergeComplexProperties [] replace_all s = (Ret tt, s))
  /\ (forall entry entries replace_all,
        mergeComplexProperties (entry :: entries) replace_all s
        = (Raise NotImplementedError, s)).
Proof.
  intros Hf Hv Hold.
  unfold complexPropertyKeys, complexProperty, mergeComplexProperties, bindM.
  rewrite (raiseInvalid_valid s f Hf Hv).
  destruct (Z.ltb_spec TAGLIB_MAJOR_VERSION 2); [done | lia].
Qed.

(** X25. With TagLib 2 and replace_all on, every complex property the
    file has is cleared before the first update is looked at: the empty
    update leaves no complex property, and when the key of the first
    update is not a string or its value does not convert, the call raises
    with the file already emptied.  Which of the two conversions speaks
    when both fail is left open, as the source leaves it. *)
Theorem replace_all_clears_first (s : FileRef.t) (f : File) :
  fileRef s = Some f -> TagLib.isValid f = true ->
  2 <= TAGLIB_MAJOR_VERSION ->
  (exists f', mergeComplexProperties [] true s = (Ret tt, FileRef.mk (Some f') (stream s))
              /\ complexProperties f' = [])
  /\ (forall k v rest,
        (exists e, as_String k = Raise e)
        \/ (exists e, rubyObjectToTagLibComplexProperty v = Raise e) ->
        exists e f',
          mergeComplexProperties ((k, v) :: rest) true s
          = (Raise e, FileRef.mk (Some f') (stream s))
          /\ complexProperties f' = []).
Proof.
  intros Hf Hv Hnew.
  unfold mergeComplexProperties, bindM. rewrite (raiseInvalid_valid s f Hf Hv).
  destruct (Z.ltb_spec TAGLIB_MAJOR_VERSION 2); [lia |].
  split.
  - eexists. split; [reflexivity | apply cleared_everything].
  - intros k v rest Hfail. cbn.
    destruct (as_String k) as [key | e1] eqn:Hk.
    + destruct Hfail as [[e He] | [e He]]; [done |]. rewrite He.
      exists e. eexists. split; [reflexivity | apply cleared_everything].
    + exists e1. eexists. split; [reflexivity | apply cleared_everything].
Qed.

End ComplexProperties.

Lemma complex_properties_unavailable_witness :
  @FileRef.complexProperty (Octets.runtime 1) Fixtures.caller_K Runs.pictured
  = (Raise NotImplementedError, Runs.pictured).
Proof.
  refine (proj1 (proj2 (@complex_properties_unavailable (Octets.runtime 1) Runs.pictured
                          Runs.pictured_file eq_refl eq_refl _)) Fixtures.caller_K).
  simpl. lia.
Defined.

Lemma replace_all_clears_first_witness :
  exists e f',
    @FileRef.mergeComplexProperties (Octets.runtime 2)
      [(Ruby.Symbol "K", Ruby.Qnil)] true Runs.pictured
    = (Raise e, FileRef.mk (Some f') (FileRef.stream Runs.pictured))
    /\ TagLib.complexProperties f' = [].
Proof.
  refine (proj2 (@replace_all_clears_first (Octets.runtime 2) Runs.pictured
                   Runs.pictured_file eq_refl eq_refl _)
            (Ruby.Symbol "K") Ruby.Qnil [] _).
  - simpl. lia.
  - left. exists TypeError. reflexivity.
Defined.

(** ** The constructor *)
Section Constructing.
Import Ruby TagLib Convert FileRef Construct.
Context `{Library}.

(** X26. The constructor raises and builds nothing when the read style
    is refused, whatever the first argument is; when the first argument
    is no IO, has no to_path and is no String, or when its to_path
    answers something that is not a String, it raises a type error. *)
Theorem constructor_rejects :
  (forall moved arg style e,
      Style.rubyObjectToTagLibAudioPropertiesReadStyle style = Raise e ->
      Construct.new moved arg style = Raise e)
  /\ (forall moved arg style st,
        Style.rubyObjectToTagLibAudioPropertiesReadStyle style = Ret st ->
        isIO arg = false -> responds_to arg "to_path" = false ->
        (forall s, self arg <> Str s) ->
        Construct.new moved arg style = Raise TypeError)
  /\ (forall moved arg style st,
        Style.rubyObjectToTagLibAudioPropertiesReadStyle style = Ret st ->
        isIO arg = false -> responds_to arg "to_path" = true ->
        (forall s, to_path arg <> Str s) ->
        Construct.new moved arg style = Raise TypeError).
Proof.
  unfold Construct.new. split; [| split].
  - by intros moved arg style e ->.
  - intros moved arg style st -> -> -> Hself. cbn.
    destruct (self arg); try done. by destruct (Hself s).
  - intros moved arg style st -> -> -> Hpath. cbn.
    destruct (to_path arg); try done. by destruct (Hpath s).
Qed.

(** X27. A handle the constructor returns owns an adapter exactly when
    the first argument is an IO and the library could read it; an IO the
    library cannot read and an empty path both give an invalid handle
    without adapter, the empty path without asking the library; and on an
    invalid handle the check every operation starts with raises. *)
Theorem constructor_owns_adapter (moved : bool) (arg : Argument) (style : Object)
    (h : FileRef.t) :
  Construct.new moved arg style = Ret h ->
  (is_Some (stream h) <-> isIO arg = true /\ FileRef.isValid h = true)
  /\ (forall path,
        isIO arg = false -> bytes path = [] ->
        responds_to arg "to_path" = true /\ to_path arg = Str path
        \/ responds_to arg "to_path" = false /\ self arg = Str path ->
        h = FileRef.mk None None)
  /\ (FileRef.isValid h = false -> raiseInvalid h = (Raise TagLibError, h)).
Proof.
  unfold Construct.new. intros Hnew.
  destruct (Style.rubyObjectToTagLibAudioPropertiesReadStyle style) as [st |]; [| done].
  cbn in Hnew. split; [| split].
  - destruct (isIO arg).
    + destruct (isNull (FileRef_of_stream _ _ _)) eqn:Hnull; injection Hnew as <-; cbn.
      * unfold FileRef.isValid. cbn. rewrite Hnull. cbn.
        split; [by intros [? ?] | by intros [_ ?]].
      * unfold FileRef.isValid. cbn. rewrite Hnull. by split; [| eexists].
    + destruct (if responds_to arg "to_path" then _ else _) as [pathStr |]; [| done].
      cbn in Hnew. destruct (0 <? _); injection Hnew as <-; cbn;
        (split; [by intros [? ?] | by intros [? _]]).
  - intros path Hio Hbytes Hempty. rewrite Hio in Hnew.
    destruct Hempty as [[Hr Hp] | [Hr Hs]]; rewrite Hr in Hnew.
    + rewrite Hp in Hnew. cbn in Hnew. unfold Convert.length in Hnew.
      rewrite Hbytes in Hnew. by injection Hnew as <-.
    + rewrite Hs in Hnew. cbn in Hnew. unfold Convert.length in Hnew.
      rewrite Hbytes in Hnew. by injection Hnew as <-.
  - intros Hinvalid. apply raiseInvalid_null.
    unfold FileRef.isValid in Hinvalid. by apply negb_false_iff.
Qed.

End Constructing.

Lemma constructor_rejects_witness :
  @Construct.new Construct.blind false (Construct.of_string Fixtures.utf8_b)
    (Ruby.Symbol "slow")
  = Raise ArgumentError.
Proof.
  exact (proj1 (@constructor_rejects Construct.blind) false
           (Construct.of_string Fixtures.utf8_b) (Ruby.Symbol "slow") ArgumentError eq_refl).
Defined.

Lemma constructor_owns_adapter_witness :
  @Construct.new Construct.blind false
    (Construct.of_string (Ruby.mkString [] Ruby.UTF_8 false)) Ruby.Qnil
  = Ret (FileRef.mk None None)
  /\ FileRef.raiseInvalid (FileRef.mk None None)
     = (Raise TagLibError, FileRef.mk None None).
Proof.
  split; [reflexivity |].
  exact (proj2 (proj2 (@constructor_owns_adapter Construct.blind false
                         (Construct.of_string (Ruby.mkString [] Ruby.UTF_8 false))
                         Ruby.Qnil (FileRef.mk None None) eq_refl))
           eq_refl).
Defined.

(** ** Closing *)
Section Closing.
Import TagLib FileRef.

(** X28. close() on a valid handle leaves the null reference and no
    adapter; on an invalid handle it changes nothing; so closing twice is
    closing once, and close never raises. *)
Theorem close_once_or_twice (s : FileRef.t) :
  fst (close s) = Ret tt
  /\ (FileRef.isValid s = true -> snd (close s) = FileRef.mk None None)
  /\ (FileRef.isValid s = false -> snd (close s) = s)
  /\ close (snd (close s)) = (Ret tt, snd (close s)).
Proof.
  unfold close, FileRef.isValid.
  destruct (isNull (fileRef s)) eqn:Hnull; cbn; rewrite ?Hnull; by repeat split.
Qed.

End Closing.

Lemma close_once_or_twice_witness :
  snd (FileRef.close Fixtures.handle) = FileRef.mk None None.
Proof. exact (proj1 (proj2 (close_once_or_twice Fixtures.handle)) eq_refl). Defined.

(** ** Keys of a variant map *)
Section MapKeys.
Import Ruby TagLib Convert.

Lemma variant_map_loop_rejects (conv : Object -> Outcome Variant)
    (entries : list (Object * Object)) (k v : Object) :
  (k, v) ∈ entries -> (forall s, k <> Str s) ->
  exists e, rubyHashToTagLibVariantMap_body conv entries = Raise e.
Proof.
  intros Hin Hk. unfold rubyHashToTagLibVariantMap_body.
  generalize (@nil (TagLib.String * Variant)) as acc.
  induction entries as [| [k0 v0] entries IH]; intros acc; [by apply elem_of_nil in Hin |].
  apply elem_of_cons in Hin as [[= <- <-] | Hin].
  - destruct k; try by eexists. by destruct (Hk s).
  - destruct (as_String k0); [| by eexists]. destruct (conv v0); [| by eexists]. by apply IH.
Qed.

(** X29. A variant map takes String keys only: a hash that holds a key
    of any other kind, a Symbol for one, makes the conversion raise, on
    its own as well as a record at the head of the array given for a
    complex property. *)
Theorem variant_map_needs_string_keys (entries : list (Object * Object)) (k v : Object) :
  (k, v) ∈ entries -> (forall s, k <> Str s) ->
  (exists e, rubyHashToTagLibVariantMap entries = Raise e)
  /\ (forall frozen, exists e, rubyObjectToTagLibVariant (Hash entries frozen) = Raise e)
  /\ (forall frozen frozen' records,
        exists e,
          rubyObjectToTagLibComplexProperty (Array (Hash entries frozen :: records) frozen')
          = Raise e).
Proof.
  intros Hin Hk.
  destruct (variant_map_loop_rejects rubyObjectToTagLibVariant entries k v Hin Hk)
    as [e Hraise].
  split; [by exists e |]. split.
  - intros frozen. exists e. cbn. by rewrite Hraise.
  - intros frozen frozen' records. exists e. cbn. unfold rubyHashToTagLibVariantMap.
    by rewrite Hraise.
Qed.

End MapKeys.

Lemma variant_map_needs_string_keys_witness :
  exists e,
    Convert.rubyHashToTagLibVariantMap
      [(Ruby.Str Fixtures.utf8_b, Ruby.Qtrue); (Ruby.Symbol "data", Ruby.Qnil)]
    = Raise e.
Proof.
  refine (proj1 (variant_map_needs_string_keys
                   [(Ruby.Str Fixtures.utf8_b, Ruby.Qtrue); (Ruby.Symbol "data", Ruby.Qnil)]
                   (Ruby.Symbol "data") Ruby.Qnil _ _)).
  - apply elem_of_cons. right. apply elem_of_cons. by left.
  - intros s. discriminate.
Defined.
